(** * audiowise: the transcription pipeline of [main.py] and its scratch files

    The script turns a video (a local file, a URL or a folder of videos) into
    a corrected transcript.  What is verified here is its orchestration: which
    scratch files it creates and removes, when it skips a job, what the batch
    driver does on a failing item and what the signal handler sees.

    The Python functions are written once, as programs over the calls they
    make to the outside (filesystem, subprocesses, network, the speech and
    grammar libraries).  An interpreter runs such a program against a
    filesystem and a [World] of answers for the external collaborators, and
    may deliver one signal between two calls. *)

From Stdlib Require Import String Ascii ZArith List Lia.
From stdpp Require Import base option gmap strings list.

Local Open Scope string_scope.
Local Open Scope Z_scope.

(** ** Strings and paths ([str] methods and [posixpath]) *)

Module Str.

(** [s[-1:]], as an optional character. *)
Fixpoint last_char (s : string) : option ascii :=
  match s with
  | EmptyString => None
  | String c EmptyString => Some c
  | String _ s' => last_char s'
  end.

Definition startswith (s p : string) : bool := String.prefix p s.

Definition endswith_char (s : string) (c : ascii) : bool :=
  match last_char s with
  | Some d => Ascii.eqb d c
  | None => false
  end.

(** [s.rfind(c)] for a one-character [c]: index of the last occurrence,
    [-1] when there is none. *)
Fixpoint rfind_from (c : ascii) (s : string) (i last : Z) : Z :=
  match s with
  | EmptyString => last
  | String a s' => rfind_from c s' (i + 1) (if Ascii.eqb a c then i else last)
  end.

Definition rfind (s : string) (c : ascii) : Z := rfind_from c s 0 (-1).

Fixpoint take (n : nat) (s : string) : string :=
  match n, s with
  | S n', String c s' => String c (take n' s')
  | _, _ => EmptyString
  end.

Fixpoint drop (n : nat) (s : string) : string :=
  match n, s with
  | S n', String _ s' => drop n' s'
  | _, _ => s
  end.

(** [s[i:j]], [s[:j]] and [s[i:]] for indices that are not negative. *)
Definition slice (s : string) (i j : Z) : string :=
  take (Z.to_nat (j - i)) (drop (Z.to_nat i) s).
Definition upto (s : string) (j : Z) : string := take (Z.to_nat j) s.
Definition from (s : string) (i : Z) : string := drop (Z.to_nat i) s.

Fixpoint all_chars (c : ascii) (s : string) : bool :=
  match s with
  | EmptyString => true
  | String a s' => Ascii.eqb a c && all_chars c s'
  end.

(** [str.lower] on the ASCII letters; other bytes are left as they are. *)
Definition lower_char (c : ascii) : ascii :=
  let n := nat_of_ascii c in
  if ((65 <=? n) && (n <=? 90))%nat then ascii_of_nat (n + 32) else c.

Fixpoint lower (s : string) : string :=
  match s with
  | EmptyString => EmptyString
  | String c s' => String (lower_char c) (lower s')
  end.

End Str.

Module posixpath.

(** [os.path.join(a, b)] *)
Definition join (a b : string) : string :=
  if Str.startswith b "/" then b
  else if String.eqb a "" || Str.endswith_char a "/" then a +:+ b
  else a +:+ "/" +:+ b.

(** [os.path.basename(p)]: [p[p.rfind('/') + 1:]] *)
Definition basename (p : string) : string :=
  Str.from p (Str.rfind p "/" + 1).

(** [os.path.splitext(p)] ([genericpath._splitext] with [sep = '/'] and
    [extsep = '.']): the extension starts at the last dot of the last
    component, unless only dots precede it there. *)
Definition splitext (p : string) : string * string :=
  let sepIndex := Str.rfind p "/" in
  let dotIndex := Str.rfind p "." in
  if sepIndex <? dotIndex then
    if Str.all_chars "." (Str.slice p (sepIndex + 1) dotIndex)
    then (p, "")
    else (Str.upto p dotIndex, Str.from p dotIndex)
  else (p, "").

End posixpath.

(** ** The filesystem

    A flat name space: a path is absent, a regular file with its bytes, or a
    directory.  Paths are compared as written (no normalisation, no links),
    and an entry does not need its parent directory. *)

Inductive node : Type :=
| File (content : string)
| Dir.

Abbreviation FS := (gmap string node).

Module Fs.

Definition exists_ (fs : FS) (p : string) : bool :=
  match fs !! p with Some _ => true | None => false end.

Definition isdir (fs : FS) (p : string) : bool :=
  match fs !! p with Some Dir => true | _ => false end.

Definition isfile (fs : FS) (p : string) : bool :=
  match fs !! p with Some (File _) => true | _ => false end.

End Fs.

(** ** Exceptions *)

Inductive Exn : Type :=
| RuntimeError (msg : string)                  (* RuntimeError("...") *)
| RuntimeError_exn (msg : string) (e : Exn)    (* RuntimeError(f"...{e}") *)
| RuntimeError_int (msg : string) (n : Z)      (* RuntimeError(f"...{n}") *)
| CalledProcessError (returncode : Z) (cmd : list string)
| OSError (filename : string)                  (* FileNotFoundError, IsADirectoryError, ... *)
| LibraryError (msg : string).                 (* raised inside requests, whisper, language_tool_python *)

(** ** Calls to the outside *)

(** What [requests.get(url, stream=True)] returns: the status and, for a
    chunk size, the chunks [iter_content] yields and the exception that ends
    the iteration early, if any. *)
Record Response : Type := mkResponse {
  status_code : Z;
  iter_content : nat -> list string * option Exn
}.

Inductive Call : Type :=
| print (msg : string)
| print_exn (msg : string) (e : Exn)           (* print(f"{msg}{e}") *)
| os_path_expanduser (p : string)
| os_path_exists (p : string)
| os_path_isdir (p : string)
| os_path_isfile (p : string)
| os_listdir (p : string)
| os_makedirs (p : string)
| os_remove (p : string)
| open_w (p : string)                          (* open(p, 'w') or open(p, 'wb') *)
| file_write (p : string) (data : string)
| uuid4_hex
| subprocess_run (argv : list string)
| requests_get (url : string)
| whisper_load_model (size : string)
| LanguageTool (language : string)
| model_transcribe (model : string) (audio_path : string)
| tool_correct (tool : string) (text : string)
| temp_files_extend (paths : list string)      (* main's temp_files.extend(paths) *)
| temp_files_read.                             (* main's temp_files, read by handle_exit *)

Definition Ans (c : Call) : Type :=
  match c with
  | print _ | print_exn _ _ | os_makedirs _ | os_remove _
  | open_w _ | file_write _ _ | temp_files_extend _ => unit
  | os_path_exists _ | os_path_isdir _ | os_path_isfile _ => bool
  | os_listdir _ | temp_files_read => list string
  | os_path_expanduser _ | uuid4_hex | whisper_load_model _ | LanguageTool _
  | model_transcribe _ _ | tool_correct _ _ => string
  | subprocess_run _ => Z
  | requests_get _ => Response
  end.

(** ** Programs *)

Inductive Prog (A : Type) : Type :=
| Ret (a : A)
| Raise (e : Exn)                              (* an [Exception] is propagating *)
| SysExit (code : Z)                           (* [sys.exit(code)]: not an [Exception] *)
| Do (c : Call) (k : Exn + Ans c -> Prog A).

Arguments Ret {A} a.
Arguments Raise {A} e.
Arguments SysExit {A} code.
Arguments Do {A} c k.

Fixpoint bind {A B : Type} (p : Prog A) (f : A -> Prog B) : Prog B :=
  match p with
  | Ret a => f a
  | Raise e => Raise e
  | SysExit n => SysExit n
  | Do c k => Do c (fun r => bind (k r) f)
  end.

(** [try: p except Exception as e: h e] *)
Fixpoint try_except {A : Type} (p : Prog A) (h : Exn -> Prog A) : Prog A :=
  match p with
  | Ret a => Ret a
  | Raise e => h e
  | SysExit n => SysExit n
  | Do c k => Do c (fun r => try_except (k r) h)
  end.

Definition call (c : Call) : Prog (Ans c) :=
  Do c (fun r => match r with inl e => Raise e | inr a => Ret a end).

Declare Scope prog_scope.
Delimit Scope prog_scope with prog.
Bind Scope prog_scope with Prog.

Notation "x <- p ;; q" := (bind p (fun x => q))
  (at level 100, p at next level, right associativity) : prog_scope.
Notation "p ;; q" := (bind p (fun _ => q))
  (at level 100, right associativity) : prog_scope.

Local Open Scope prog_scope.

Definition when (b : bool) (p : Prog unit) : Prog unit :=
  if b then p else Ret tt.

(** [for x in l: body x] *)
Fixpoint for_each {X : Type} (l : list X) (body : X -> Prog unit) : Prog unit :=
  match l with
  | [] => Ret tt
  | x :: l' => body x ;; for_each l' body
  end.

(** ** The script *)

Definition SUPPORTED_VIDEO_EXTENSIONS : gset string :=
  {[ ".mp4"; ".mkv"; ".avi"; ".mov"; ".flv"; ".wmv"; ".ts"; ".webm"; ".m4v" ]}.

Definition supported_extension (ext : string) : bool :=
  bool_decide (ext ∈ SUPPORTED_VIDEO_EXTENSIONS).

Definition get_temp_dir : Prog string :=
  home_dir <- call (os_path_expanduser "~") ;;
  let temp_dir := posixpath.join home_dir ".audiowise" in
  present <- call (os_path_exists temp_dir) ;;
  when (negb present) (call (os_makedirs temp_dir)) ;;
  Ret temp_dir.

Definition cleanup_temp_files (temp_files : list string) : Prog unit :=
  for_each temp_files (fun temp_file =>
    present <- call (os_path_exists temp_file) ;;
    when present (call (os_remove temp_file))) ;;
  call (print "[LOG] Arquivos temporários removidos.").

Definition check_dependencies : Prog unit :=
  returncode <- call (subprocess_run ["which"; "ffmpeg"]) ;;
  (if negb (returncode =? 0)
   then Raise (RuntimeError "FFmpeg não está instalado ou não está no PATH.")
   else Ret tt) ;;
  try_except (_ <- call (whisper_load_model "base") ;; Ret tt)
    (fun e => Raise (RuntimeError_exn "Erro ao carregar o Whisper: " e)) ;;
  try_except (_ <- call (LanguageTool "pt-BR") ;; Ret tt)
    (fun e => Raise (RuntimeError_exn "Erro ao inicializar o LanguageTool: " e)).

(** [subprocess.run(argv, check=True, ...)] *)
Definition subprocess_run_check (argv : list string) : Prog unit :=
  returncode <- call (subprocess_run argv) ;;
  if returncode =? 0 then Ret tt else Raise (CalledProcessError returncode argv).

Definition download_video (url download_path : string) : Prog unit :=
  call (print ("[LOG] Baixando vídeo da URL: " +:+ url +:+ "...")) ;;
  response <- call (requests_get url) ;;
  if status_code response =? 200 then
    call (open_w download_path) ;;
    (let '(chunks, broken) := iter_content response 1024%nat in
     for_each chunks (fun chunk => call (file_write download_path chunk)) ;;
     match broken with Some e => Raise e | None => Ret tt end) ;;
    call (print ("[LOG] Download concluído: " +:+ download_path))
  else
    Raise (RuntimeError_int "Erro ao baixar vídeo. Status HTTP: " (status_code response)).

Definition extract_audio (video_path output_audio_path : string) : Prog unit :=
  call (print "[LOG] Iniciando extração do áudio...") ;;
  try_except
    (subprocess_run_check
       ["ffmpeg"; "-i"; video_path; "-q:a"; "0"; "-map"; "a"; output_audio_path] ;;
     call (print "[LOG] Extração do áudio concluída."))
    (fun e =>
       match e with
       | CalledProcessError _ _ => Raise (RuntimeError_exn "Erro ao extrair áudio: " e)
       | _ => Raise e
       end).

Definition transcribe_audio (audio_path output_txt_path model tool : string) : Prog unit :=
  call (print "[LOG] Iniciando transcrição do áudio...") ;;
  result_text <- call (model_transcribe model audio_path) ;;
  call (print "[LOG] Iniciando correção do texto transcrito...") ;;
  corrected_text <- call (tool_correct tool result_text) ;;
  call (open_w output_txt_path) ;;
  call (file_write output_txt_path corrected_text) ;;
  call (print "[LOG] Transcrição corrigida salva em arquivo.").

Definition convert_to_mono (input_audio output_audio : string) : Prog unit :=
  subprocess_run_check ["ffmpeg"; "-i"; input_audio; "-ac"; "1"; output_audio].

(** The three scratch names built from the temp directory and the job's token. *)
Definition video_scratch (temp_dir unique_id : string) : string :=
  posixpath.join temp_dir ("video_" +:+ unique_id +:+ ".mp4").
Definition audio_scratch (temp_dir unique_id : string) : string :=
  posixpath.join temp_dir ("audio_" +:+ unique_id +:+ ".mp3").
Definition mono_scratch (temp_dir unique_id : string) : string :=
  posixpath.join temp_dir ("mono_audio_" +:+ unique_id +:+ ".mp3").

(** [os.path.join(folder, f"{os.path.splitext(name)[0]}.txt")] *)
Definition transcript_path (folder name : string) : string :=
  posixpath.join folder ((posixpath.splitext name).1 +:+ ".txt").

(** The list comprehension of [process_folder]: one [os.path.isfile] per
    entry, the extension test only for regular files. *)
Fixpoint select_videos (input_folder : string) (entries : list string)
  : Prog (list string) :=
  match entries with
  | [] => Ret []
  | f :: rest =>
      is_file <- call (os_path_isfile (posixpath.join input_folder f)) ;;
      selected <- select_videos input_folder rest ;;
      Ret (if is_file && supported_extension (Str.lower (posixpath.splitext f).2)
           then f :: selected else selected)
  end.

(** The [try] block of one iteration of [process_folder]. *)
Definition process_video_steps (video_file video_path output_audio_path
    mono_audio_path output_txt_path model tool : string) : Prog unit :=
  call (print ("[LOG] Processando arquivo: " +:+ video_file +:+ "...")) ;;
  extract_audio video_path output_audio_path ;;
  convert_to_mono output_audio_path mono_audio_path ;;
  transcribe_audio mono_audio_path output_txt_path model tool ;;
  call (os_remove output_audio_path) ;;
  call (os_remove mono_audio_path) ;;
  call (print ("[LOG] Processamento concluído para: " +:+ video_file)).

(** Its [except Exception as e] block. *)
Definition process_video_failed (video_file : string) (temp_files : list string)
    (e : Exn) : Prog unit :=
  call (print_exn ("Erro ao processar " +:+ video_file +:+ ": ") e) ;;
  cleanup_temp_files temp_files.

(** One iteration of the loop of [process_folder]; [temp_files] is the list
    local to [process_folder], returned as the iteration leaves it. *)
Definition process_video (input_folder output_folder model tool : string)
    (temp_files : list string) (video_file : string) : Prog (list string) :=
  let video_path := posixpath.join input_folder video_file in
  let output_txt_path := transcript_path output_folder video_file in
  done <- call (os_path_exists output_txt_path) ;;
  if done then
    call (print ("[LOG] Arquivo já processado, ignorando: " +:+ output_txt_path)) ;;
    Ret temp_files
  else
    unique_id <- call uuid4_hex ;;
    temp_dir <- get_temp_dir ;;
    let output_audio_path := audio_scratch temp_dir unique_id in
    let mono_audio_path := mono_scratch temp_dir unique_id in
    let temp_files := (temp_files ++ [output_audio_path; mono_audio_path])%list in
    try_except
      (process_video_steps video_file video_path output_audio_path
         mono_audio_path output_txt_path model tool)
      (process_video_failed video_file temp_files) ;;
    Ret temp_files.

Fixpoint process_videos (input_folder output_folder model tool : string)
    (temp_files : list string) (video_files : list string) : Prog (list string) :=
  match video_files with
  | [] => Ret temp_files
  | video_file :: rest =>
      temp_files <- process_video input_folder output_folder model tool
                      temp_files video_file ;;
      process_videos input_folder output_folder model tool temp_files rest
  end.

Definition process_folder (input_folder output_folder model tool : string) : Prog unit :=
  call (print ("[LOG] Processando pasta: " +:+ input_folder +:+ "...")) ;;
  present <- call (os_path_exists output_folder) ;;
  when (negb present) (call (os_makedirs output_folder)) ;;
  entries <- call (os_listdir input_folder) ;;
  video_files <- select_videos input_folder entries ;;
  _ <- process_videos input_folder output_folder model tool [] video_files ;;
  Ret tt.

(** The inner [try] block of the single-item branch of [main]. *)
Definition process_single_steps (video_path temp_video_path output_audio_path
    mono_audio_path output_path model tool : string) : Prog unit :=
  call (print "[LOG] Processo iniciado.") ;;
  when (Str.startswith video_path "http") (download_video video_path temp_video_path) ;;
  extract_audio temp_video_path output_audio_path ;;
  convert_to_mono output_audio_path mono_audio_path ;;
  transcribe_audio mono_audio_path output_path model tool ;;
  call (os_remove output_audio_path) ;;
  call (os_remove mono_audio_path) ;;
  when (Str.startswith video_path "http") (call (os_remove temp_video_path)) ;;
  call (print "[LOG] Processo concluído com sucesso.") ;;
  call (print ("[LOG] Arquivo de saída: " +:+ output_path)).

(** The single-item branch of [main] from the allocation of the token on
    (lines 175 to 197). *)
Definition process_single (video_path output_path model tool : string) : Prog unit :=
  unique_id <- call uuid4_hex ;;
  temp_dir <- get_temp_dir ;;
  let temp_video_path :=
    if Str.startswith video_path "http" then video_scratch temp_dir unique_id
    else video_path in
  let output_audio_path := audio_scratch temp_dir unique_id in
  let mono_audio_path := mono_scratch temp_dir unique_id in
  call (temp_files_extend [output_audio_path; mono_audio_path]) ;;
  try_except
    (process_single_steps video_path temp_video_path output_audio_path
       mono_audio_path output_path model tool)
    (fun e => call (print_exn "Erro durante o processo: " e)).

(** [main], after [parse_args] and from the point where both handlers are
    installed; [temp_files] of [main] starts empty in the initial state. *)
Definition main (video_path output_path model_size language : string) : Prog unit :=
  try_except
    (check_dependencies ;;
     model <- call (whisper_load_model model_size) ;;
     tool <- call (LanguageTool language) ;;
     is_folder <- call (os_path_isdir video_path) ;;
     if is_folder then process_folder video_path output_path model tool
     else
       present <- call (os_path_exists video_path) ;;
       if negb present then
         call (print ("Erro: O arquivo de entrada '" +:+ video_path +:+ "' não existe."))
       else
         into_folder <- call (os_path_isdir output_path) ;;
         let output_path :=
           if into_folder
           then transcript_path output_path (posixpath.basename video_path)
           else output_path in
         done <- call (os_path_exists output_path) ;;
         if done then
           call (print ("[LOG] Arquivo já processado, ignorando: " +:+ output_path))
         else process_single video_path output_path model tool)
    (fun e => call (print_exn "Erro fatal: " e)).

(** [handle_exit], the handler of SIGINT and SIGTERM. *)
Definition handle_exit : Prog unit :=
  call (print "[LOG] Interrupção detectada. Limpando recursos...") ;;
  temp_files <- call temp_files_read ;;
  cleanup_temp_files temp_files ;;
  SysExit 1.

(** ** The outside world *)

(** The answers of the collaborators the script does not control. *)
Record World : Type := mkWorld {
  (** [os.path.expanduser("~")] *)
  w_home : string;
  (** the n-th [uuid.uuid4().hex] of the run *)
  w_uuid : nat -> string;
  (** [os.listdir] of a directory: the names the system reports, in its order *)
  w_listdir : string -> list string;
  (** a subprocess: its exit status and, for the transcoder, the bytes it
      leaves at its output operand (the last argument), if any *)
  w_run : list string -> FS -> Z * option string;
  (** [requests.get]: a response, or the exception it raises *)
  w_get : string -> Exn + Response;
  (** [whisper.load_model] and [LanguageTool(...)]: the exception raised, if any *)
  w_load_model : string -> option Exn;
  w_language_tool : string -> option Exn;
  (** [model.transcribe(path)['text']] for a model size *)
  w_transcribe : string -> FS -> string -> Exn + string;
  (** [tool.correct(text)] for a language *)
  w_correct : string -> string -> Exn + string
}.

Record State : Type := mkState {
  st_fs : FS;
  (** how many tokens [uuid4] has handed out *)
  st_uuids : nat;
  (** [temp_files] of [main], the list [handle_exit] closes over *)
  st_temp_files : list string;
  (** a pending signal, delivered when that many further calls have been made *)
  st_signal : option nat;
  (** the calls made so far, oldest first *)
  st_trace : list Call
}.

Definition with_fs (fs : FS) (s : State) : State :=
  mkState fs (st_uuids s) (st_temp_files s) (st_signal s) (st_trace s).
Definition with_uuids (n : nat) (s : State) : State :=
  mkState (st_fs s) n (st_temp_files s) (st_signal s) (st_trace s).
Definition with_temp_files (l : list string) (s : State) : State :=
  mkState (st_fs s) (st_uuids s) l (st_signal s) (st_trace s).
Definition with_signal (sg : option nat) (s : State) : State :=
  mkState (st_fs s) (st_uuids s) (st_temp_files s) sg (st_trace s).
Definition record_call (c : Call) (s : State) : State :=
  mkState (st_fs s) (st_uuids s) (st_temp_files s) (st_signal s) (st_trace s ++ [c]).

(** The effect of one call on the state, and its answer or exception. *)
Definition answer (w : World) (c : Call) (s : State) : (Exn + Ans c) * State :=
  let fs := st_fs s in
  match c return (Exn + Ans c) * State with
  | print _ => (inr tt, s)
  | print_exn _ _ => (inr tt, s)
  | os_path_expanduser _ => (inr (w_home w), s)
  | os_path_exists p => (inr (Fs.exists_ fs p), s)
  | os_path_isdir p => (inr (Fs.isdir fs p), s)
  | os_path_isfile p => (inr (Fs.isfile fs p), s)
  | os_listdir p =>
      if Fs.isdir fs p then (inr (w_listdir w p), s) else (inl (OSError p), s)
  | os_makedirs p =>
      if Fs.exists_ fs p then (inl (OSError p), s)
      else (inr tt, with_fs (<[p := Dir]> fs) s)
  | os_remove p =>
      if Fs.isfile fs p then (inr tt, with_fs (delete p fs) s)
      else (inl (OSError p), s)
  | open_w p =>
      if Fs.isdir fs p then (inl (OSError p), s)
      else (inr tt, with_fs (<[p := File ""]> fs) s)
  | file_write p data =>
      match fs !! p with
      | Some (File content) => (inr tt, with_fs (<[p := File (content +:+ data)]> fs) s)
      | _ => (inl (OSError p), s)
      end
  | uuid4_hex => (inr (w_uuid w (st_uuids s)), with_uuids (S (st_uuids s)) s)
  | subprocess_run argv =>
      let '(returncode, output) := w_run w argv fs in
      match argv, output with
      | "ffmpeg" :: _, Some bytes =>
          (inr returncode, with_fs (<[List.last argv "" := File bytes]> fs) s)
      | _, _ => (inr returncode, s)
      end
  | requests_get url =>
      match w_get w url with inl e => (inl e, s) | inr response => (inr response, s) end
  | whisper_load_model size =>
      match w_load_model w size with Some e => (inl e, s) | None => (inr size, s) end
  | LanguageTool language =>
      match w_language_tool w language with Some e => (inl e, s) | None => (inr language, s) end
  | model_transcribe model audio_path =>
      match w_transcribe w model fs audio_path with
      | inl e => (inl e, s) | inr text => (inr text, s) end
  | tool_correct tool text =>
      match w_correct w tool text with
      | inl e => (inl e, s) | inr text' => (inr text', s) end
  | temp_files_extend paths =>
      (inr tt, with_temp_files (st_temp_files s ++ paths) s)
  | temp_files_read => (inr (st_temp_files s), s)
  end.

Definition perform (w : World) (c : Call) (s : State) : (Exn + Ans c) * State :=
  answer w c (record_call c s).

(** How a program ends. *)
Inductive Outcome (A : Type) : Type :=
| Returned (a : A) (s : State)
| Raised (e : Exn) (s : State)
| Exited (code : Z) (s : State).

Arguments Returned {A} a s.
Arguments Raised {A} e s.
Arguments Exited {A} code s.

Definition final {A : Type} (o : Outcome A) : State :=
  match o with Returned _ s | Raised _ s | Exited _ s => s end.

(** Running with no signal. *)
Fixpoint run_quiet (w : World) {A : Type} (p : Prog A) (s : State) : Outcome A :=
  match p with
  | Ret a => Returned a s
  | Raise e => Raised e s
  | SysExit n => Exited n s
  | Do c k => let '(r, s') := perform w c s in run_quiet w (k r) s'
  end.

(** Running with the handlers installed: when the pending signal is due, the
    handler runs before the next call.  [sys.exit] ends the process; an
    exception that escapes the handler surfaces in the interrupted code. *)
Fixpoint run (w : World) {A : Type} (p : Prog A) (s : State) : Outcome A :=
  match p with
  | Ret a => Returned a s
  | Raise e => Raised e s
  | SysExit n => Exited n s
  | Do c k =>
      match st_signal s with
      | Some O =>
          match run_quiet w handle_exit (with_signal None s) with
          | Returned _ s' => let '(r, s'') := perform w c s' in run w (k r) s''
          | Raised e s' => run w (k (inl e)) s'
          | Exited n s' => Exited n s'
          end
      | Some (S n) =>
          let '(r, s') := perform w c (with_signal (Some n) s) in run w (k r) s'
      | None => let '(r, s') := perform w c s in run w (k r) s'
      end
  end.

(** The state in which [main] starts. *)
Definition start (fs : FS) (signal : option nat) : State :=
  mkState fs 0 [] signal [].

Definition run_main (w : World) (fs : FS) (signal : option nat)
    (video_path output_path model_size language : string) : Outcome unit :=
  run w (main video_path output_path model_size language) (start fs signal).

(** ** Notions used in the statements *)

(** The temp directory [get_temp_dir] returns. *)
Definition temp_dir_of (w : World) : string :=
  posixpath.join (w_home w) ".audiowise".

(** The scratch names of the job that draws the n-th token. *)
Definition audio_of (w : World) (n : nat) : string :=
  audio_scratch (temp_dir_of w) (w_uuid w n).
Definition mono_of (w : World) (n : nat) : string :=
  mono_scratch (temp_dir_of w) (w_uuid w n).
Definition video_of (w : World) (n : nat) : string :=
  video_scratch (temp_dir_of w) (w_uuid w n).

(** A status of the successful class of HTTP (2xx); [download_video] itself
    compares the status with 200. *)
Definition successful_status (code : Z) : bool :=
  (200 <=? code) && (code <? 300).

(** A state with no signal pending, as a function finds it when called in
    the middle of a run. *)
Definition idle (fs : FS) : State := mkState fs 0 [] None [].

(** A name of the form the folder driver allocates: the audio or the mono
    scratch name of some token of the run. *)
Definition scratch_name (w : World) (p : string) : Prop :=
  exists n, p = audio_of w n \/ p = mono_of w n.

(** No scratch name is taken by a directory. *)
Definition no_scratch_directory (w : World) (fs : FS) : Prop :=
  forall p, scratch_name w p -> Fs.isdir fs p = false.

(** Every path of the list is a scratch name and is absent. *)
Definition released (w : World) (fs : FS) (temp_files : list string) : Prop :=
  forall p, p ∈ temp_files -> scratch_name w p /\ fs !! p = None.

(** The entries [process_folder] selects: regular files whose lower-cased
    extension is in the whitelist, in the order of the listing. *)
Definition selected (w : World) (fs : FS) (input_folder : string) : list string :=
  List.filter
    (fun f => Fs.isfile fs (posixpath.join input_folder f)
              && supported_extension (Str.lower (posixpath.splitext f).2))
    (w_listdir w input_folder).

(** Two filesystems agree on every path outside [P]. *)
Definition unchanged_outside (P : string -> Prop) (fs fs' : FS) : Prop :=
  forall p, ~ P p -> fs' !! p = fs !! p.

(** Every directory of [fs'] was one in [fs]. *)
Definition no_new_directory (fs fs' : FS) : Prop :=
  forall p, Fs.isdir fs' p = true -> Fs.isdir fs p = true.

(** The log lines of one item of a folder run. *)
Definition processing_line (video_file : string) : string :=
  "[LOG] Processando arquivo: " +:+ video_file +:+ "...".
Definition skip_line (output_txt_path : string) : string :=
  "[LOG] Arquivo já processado, ignorando: " +:+ output_txt_path.
Definition failure_line (video_file : string) : string :=
  "Erro ao processar " +:+ video_file +:+ ": ".

(** The video a transcoder command extracts the audio of, when the command
    is the one of [extract_audio]. *)
Definition extraction_source (argv : list string) : option string :=
  match argv with
  | "ffmpeg" :: "-i" :: src :: "-q:a" :: _ => Some src
  | _ => None
  end.

(** The calls [cleanup_temp_files l] may make. *)
Definition cleanup_call (l : list string) (c : Call) : Prop :=
  match c with
  | os_path_exists p | os_remove p => p ∈ l
  | print m => m = "[LOG] Arquivos temporários removidos."
  | _ => False
  end.

(** What a call made for the item [video_file] of a folder run may be: a
    "Processando arquivo" line names that file, the only file written is
    its transcript, the transcoder extracts from that file, only scratch
    names are removed, and neither the network nor [temp_files] of [main]
    is touched. *)
Definition item_call (w : World) (input_folder output_folder video_file : string)
    (c : Call) : Prop :=
  match c with
  | print m =>
      String.prefix "[LOG] Processando arquivo: " m = true ->
      m = processing_line video_file
  | open_w p | file_write p _ => p = transcript_path output_folder video_file
  | subprocess_run argv =>
      forall src, extraction_source argv = Some src ->
                  src = posixpath.join input_folder video_file
  | os_remove p => scratch_name w p
  | requests_get _ | temp_files_extend _ => False
  | _ => True
  end.

(** What a call of a folder run over the selected files [sel] may be. *)
Definition folder_call (w : World) (input_folder output_folder : string)
    (sel : list string) (c : Call) : Prop :=
  match c with
  | print m =>
      String.prefix "[LOG] Processando arquivo: " m = true ->
      exists f, f ∈ sel /\ m = processing_line f
  | open_w p | file_write p _ =>
      exists f, f ∈ sel /\ p = transcript_path output_folder f
  | subprocess_run argv =>
      forall src, extraction_source argv = Some src ->
                  exists f, f ∈ sel /\ src = posixpath.join input_folder f
  | os_remove p => scratch_name w p
  | requests_get _ | temp_files_extend _ => False
  | _ => True
  end.

(** The calls that allocate a scratch path, run a stage or change a file;
    the other calls only look at the world or write to the log. *)
Definition stage_call (c : Call) : bool :=
  match c with
  | uuid4_hex | os_makedirs _ | os_remove _ | open_w _ | file_write _ _
  | requests_get _ | model_transcribe _ _ | tool_correct _ _
  | temp_files_extend _ => true
  | subprocess_run ("ffmpeg" :: _) => true
  | _ => false
  end.

(** What a call that only looks at the filesystem [fs] is answered. *)
Definition reads (w : World) (fs : FS) (c : Call) : Ans c -> Prop :=
  match c return Ans c -> Prop with
  | os_path_exists p => fun a => a = Fs.exists_ fs p
  | os_path_isdir p => fun a => a = Fs.isdir fs p
  | os_path_isfile p => fun a => a = Fs.isfile fs p
  | os_listdir p => fun a => a = w_listdir w p
  | _ => fun _ => True
  end.

(** The calls [handle_exit] may make when [temp_files] of [main] is [l]. *)
Definition handler_call (l : list string) (c : Call) : Prop :=
  c = print "[LOG] Interrupção detectada. Limpando recursos..."
  \/ c = temp_files_read \/ cleanup_call l c.

(** The destination of a single-item run: inside [output_path] when that is
    a directory (lines 168 and 169). *)
Definition single_destination (fs : FS) (video_path output_path : string) : string :=
  if Fs.isdir fs output_path
  then transcript_path output_path (posixpath.basename video_path)
  else output_path.

(** What a call of a run on a local input may be: only scratch names are
    removed or added to [temp_files], and nothing is fetched. *)
Definition local_call (w : World) (c : Call) : Prop :=
  match c with
  | os_remove p => scratch_name w p
  | temp_files_extend l => forall p, p ∈ l -> scratch_name w p
  | requests_get _ => False
  | _ => True
  end.

(** A program keeps the state predicate [Inv] whenever the signal arrives,
    and returns only values that satisfy [Q]. *)
Definition keeps (w : World) (Inv : State -> Prop) {A : Type} (p : Prog A)
    (Q : A -> Prop) : Prop :=
  forall s, Inv s ->
    match run w p s with
    | Returned a s' => Inv s' /\ Q a
    | Raised _ s' => Inv s'
    | Exited _ s' => Inv s'
    end.

(** Between [s] and [s'] no token was drawn, no stage call was made and
    neither the filesystem nor [temp_files] of [main] changed. *)
Definition skipped (s s' : State) : Prop :=
  st_fs s' = st_fs s /\ st_uuids s' = st_uuids s /\
  st_temp_files s' = st_temp_files s /\
  exists tr, st_trace s' = (st_trace s ++ tr)%list /\
             Forall (fun c => stage_call c = false) tr.

(** What the world answers to a call, whatever the state. *)
Definition world_answer (w : World) (c : Call) : Ans c -> Prop :=
  match c return Ans c -> Prop with
  | uuid4_hex => fun a => exists n, a = w_uuid w n
  | os_path_expanduser _ => fun a => a = w_home w
  | _ => fun _ => True
  end.

(** The state of a run on a local input that started on [fs]: every call
    made so far is a [local_call], [temp_files] of [main] holds scratch
    names only, and every path of [fs] that is not a scratch name is still
    there. *)
Definition local_state (w : World) (fs : FS) (s : State) : Prop :=
  Forall (local_call w) (st_trace s) /\
  (forall p, p ∈ st_temp_files s -> scratch_name w p) /\
  (forall q, ~ scratch_name w q -> is_Some (fs !! q) -> is_Some (st_fs s !! q)).

(** The program never ends the process when no signal arrives. *)
Definition never_exits (w : World) {A : Type} (p : Prog A) : Prop :=
  forall s, match run_quiet w p s with Exited _ _ => False | _ => True end.

(** Whenever the signal arrives, the process ends with status 1 if it is
    ended at all. *)
Definition exits_with_one (w : World) {A : Type} (p : Prog A) : Prop :=
  forall s, match run w p s with Exited n _ => n = 1 | _ => True end.

(** ** Scenarios *)

Module Scenario.

(** A machine on which every tool works: the transcoder writes its output
    and exits with 0, the libraries load, the network is not reachable. *)
Definition healthy : World := {|
  w_home := "/home/u";
  w_uuid := fun n => match n with O => "a1" | _ => "b2" end;
  w_listdir := fun _ => ["a.mp4"; "notes.txt"; "b.MKV"];
  w_run := fun argv _ =>
    match argv with "ffmpeg" :: _ => (0, Some "pcm") | _ => (0, None) end;
  w_get := fun _ => inl (LibraryError "connection refused");
  w_load_model := fun _ => None;
  w_language_tool := fun _ => None;
  w_transcribe := fun _ _ _ => inr "ola mundo";
  w_correct := fun _ text => inr (text +:+ ".")
|}.

(** The remote answers 203 (Non-Authoritative Information) with a body. *)
Definition answers_203 : World := {|
  w_home := "/home/u";
  w_uuid := fun _ => "a1";
  w_listdir := fun _ => [];
  w_run := fun _ _ => (0, None);
  w_get := fun _ => inr (mkResponse 203 (fun _ => (["RIFF"; "data"], None)));
  w_load_model := fun _ => None;
  w_language_tool := fun _ => None;
  w_transcribe := fun _ _ _ => inr "";
  w_correct := fun _ text => inr text
|}.

(** The remote answers 200 and the body arrives in two chunks. *)
Definition answers_200 : World := {|
  w_home := "/home/u";
  w_uuid := fun _ => "a1";
  w_listdir := fun _ => [];
  w_run := fun _ _ => (0, None);
  w_get := fun _ => inr (mkResponse 200 (fun _ => (["RIFF"; "data"], None)));
  w_load_model := fun _ => None;
  w_language_tool := fun _ => None;
  w_transcribe := fun _ _ _ => inr "";
  w_correct := fun _ text => inr text
|}.

(** The speech model works and the grammar tool raises. *)
Definition correction_fails : World := {|
  w_home := "/home/u";
  w_uuid := fun _ => "a1";
  w_listdir := fun _ => [];
  w_run := fun argv _ =>
    match argv with "ffmpeg" :: _ => (0, Some "pcm") | _ => (0, None) end;
  w_get := fun _ => inl (LibraryError "connection refused");
  w_load_model := fun _ => None;
  w_language_tool := fun _ => None;
  w_transcribe := fun _ _ _ => inr "ola mundo";
  w_correct := fun _ _ => inl (LibraryError "LanguageTool server died")
|}.

(** The transcoder extracts the audio track and fails on the mono
    conversion (exit status 1, nothing written). *)
Definition downmix_fails : World := {|
  w_home := "/home/u";
  w_uuid := fun _ => "a1";
  w_listdir := fun _ => ["talk.mp4"];
  w_run := fun argv _ =>
    match argv with
    | ["ffmpeg"; "-i"; _; "-ac"; "1"; _] => (1, None)
    | "ffmpeg" :: _ => (0, Some "pcm")
    | _ => (0, None)
    end;
  w_get := fun _ => inl (LibraryError "connection refused");
  w_load_model := fun _ => None;
  w_language_tool := fun _ => None;
  w_transcribe := fun _ _ _ => inr "ola mundo";
  w_correct := fun _ text => inr (text +:+ ".")
|}.

(** The transcoder cannot read [in/a.mp4] (exit status 1) and handles every
    other file. *)
Definition one_bad_video : World := {|
  w_home := "/home/u";
  w_uuid := fun n => match n with O => "a1" | _ => "b2" end;
  w_listdir := fun _ => ["a.mp4"; "notes.txt"; "b.MKV"];
  w_run := fun argv _ =>
    match argv with
    | "ffmpeg" :: "-i" :: "in/a.mp4" :: _ => (1, None)
    | "ffmpeg" :: _ => (0, Some "pcm")
    | _ => (0, None)
    end;
  w_get := fun _ => inl (LibraryError "connection refused");
  w_load_model := fun _ => None;
  w_language_tool := fun _ => None;
  w_transcribe := fun _ _ _ => inr "ola mundo";
  w_correct := fun _ text => inr (text +:+ ".")
|}.

(** One local video in the working directory. *)
Definition fs_talk : FS := {[ "talk.mp4" := File "video" ]}.

(** The same video inside a folder. *)
Definition fs_talk_folder : FS := {[ "in" := Dir; "in/talk.mp4" := File "video" ]}.

(** The folder that [healthy] lists: two videos and a text file. *)
Definition fs_folder : FS :=
  {[ "in" := Dir; "in/a.mp4" := File "video a"; "in/notes.txt" := File "text";
     "in/b.MKV" := File "video b" ]}.

(** A directory sits where a scratch file is expected. *)
Definition fs_directory_in_the_way : FS :=
  {[ "/home/u/.audiowise/audio_a1.mp3" := Dir;
     "/home/u/.audiowise/mono_audio_a1.mp3" := File "m" ]}.

(** [talk.mp4] with its transcript already next to it. *)
Definition fs_talk_done : FS :=
  {[ "talk.mp4" := File "video"; "talk.txt" := File "ola mundo." ]}.

(** A folder whose video already has its transcript in [out]. *)
Definition fs_folder_done : FS :=
  {[ "in" := Dir; "in/a.mp4" := File "video a"; "out" := Dir;
     "out/a.txt" := File "ola mundo." ]}.

End Scenario.

(** * Proofs *)

(** ** Running programs *)

Section Running.
Context (w : World).

Lemma perform_signal (c : Call) (s : State) :
  st_signal (perform w c s).2 = st_signal s.
Proof.
  unfold perform, answer.
  destruct c; simpl; repeat case_match; reflexivity.
Qed.

Lemma perform_temp_files (c : Call) (s : State) :
  (forall l, c <> temp_files_extend l) ->
  st_temp_files (perform w c s).2 = st_temp_files s.
Proof.
  intros Hc. unfold perform, answer.
  destruct c; simpl; repeat case_match; try reflexivity.
  exfalso. eapply Hc. reflexivity.
Qed.

Lemma run_no_signal {A} (p : Prog A) (s : State) :
  st_signal s = None -> run w p s = run_quiet w p s.
Proof.
  revert s. induction p as [a|e|n|c k IH]; intros s Hs; simpl; try reflexivity.
  rewrite Hs. destruct (perform w c s) as [r s'] eqn:E.
  apply IH. rewrite <- Hs. change s' with ((r, s').2). rewrite <- E.
  apply perform_signal.
Qed.

Lemma run_quiet_bind {A B} (p : Prog A) (f : A -> Prog B) (s : State) :
  run_quiet w (bind p f) s =
  match run_quiet w p s with
  | Returned a s' => run_quiet w (f a) s'
  | Raised e s' => Raised e s'
  | Exited n s' => Exited n s'
  end.
Proof.
  revert s. induction p as [a|e|n|c k IH]; intros s; simpl; try reflexivity.
  destruct (perform w c s) as [r s']. apply IH.
Qed.

Lemma run_quiet_try {A} (p : Prog A) (h : Exn -> Prog A) (s : State) :
  run_quiet w (try_except p h) s =
  match run_quiet w p s with
  | Returned a s' => Returned a s'
  | Raised e s' => run_quiet w (h e) s'
  | Exited n s' => Exited n s'
  end.
Proof.
  revert s. induction p as [a|e|n|c k IH]; intros s; simpl; try reflexivity.
  destruct (perform w c s) as [r s']. apply IH.
Qed.

Lemma run_bind {A B} (p : Prog A) (f : A -> Prog B) (s : State) :
  run w (bind p f) s =
  match run w p s with
  | Returned a s' => run w (f a) s'
  | Raised e s' => Raised e s'
  | Exited n s' => Exited n s'
  end.
Proof.
  revert s. induction p as [a|e|n|c k IH]; intros s; cbn [run bind]; try reflexivity.
  destruct (st_signal s) as [[|n]|].
  - destruct (run_quiet w handle_exit (with_signal None s)) as [[] s'|e s'|n s'].
    + destruct (perform w c s') as [r s'']. apply IH.
    + apply IH.
    + reflexivity.
  - destruct (perform w c (with_signal (Some n) s)) as [r s']. apply IH.
  - destruct (perform w c s) as [r s']. apply IH.
Qed.

Lemma run_try {A} (p : Prog A) (h : Exn -> Prog A) (s : State) :
  run w (try_except p h) s =
  match run w p s with
  | Returned a s' => Returned a s'
  | Raised e s' => run w (h e) s'
  | Exited n s' => Exited n s'
  end.
Proof.
  revert s. induction p as [a|e|n|c k IH]; intros s; cbn [run try_except]; try reflexivity.
  destruct (st_signal s) as [[|n]|].
  - destruct (run_quiet w handle_exit (with_signal None s)) as [[] s'|e s'|n s'].
    + destruct (perform w c s') as [r s'']. apply IH.
    + apply IH.
    + reflexivity.
  - destruct (perform w c (with_signal (Some n) s)) as [r s']. apply IH.
  - destruct (perform w c s) as [r s']. apply IH.
Qed.

Lemma run_quiet_call (c : Call) (s : State) :
  run_quiet w (call c) s =
  match perform w c s with
  | (inl e, s') => Raised e s'
  | (inr a, s') => Returned a s'
  end.
Proof. simpl. destruct (perform w c s) as [[e|a] s']; reflexivity. Qed.

End Running.

(** One step of symbolic execution of a quiet run. *)
Ltac exec := repeat (cbn; unfold perform, answer).

(** ** Strings *)

Section Strings.

Lemma app_cons (a : ascii) (s t : string) : String a s +:+ t = String a (s +:+ t).
Proof. reflexivity. Qed.

Lemma app_empty_r (s : string) : s +:+ "" = s.
Proof.
  induction s as [|a s IH]; [reflexivity|]. rewrite app_cons, IH. reflexivity.
Qed.

Lemma app_assoc_str (a b c : string) : (a +:+ b) +:+ c = a +:+ b +:+ c.
Proof.
  induction a as [|x a IH]; [reflexivity|]. rewrite !app_cons, IH. reflexivity.
Qed.

End Strings.

(** ** Releasing scratch files: [cleanup_temp_files] *)

Section Release.
Context (w : World).

Local Abbreviation release_loop l :=
  (for_each l (fun temp_file =>
     present <- call (os_path_exists temp_file) ;;
     when present (call (os_remove temp_file)))) (only parsing).

Lemma release_step_regular (p : string) (l : list string) (s : State) :
  Fs.isdir (st_fs s) p = false ->
  exists s', run_quiet w (release_loop (p :: l)) s = run_quiet w (release_loop l) s' /\
    st_fs s' = delete p (st_fs s) /\ st_temp_files s' = st_temp_files s /\
    st_uuids s' = st_uuids s /\ st_signal s' = st_signal s /\
    exists tr, st_trace s' = (st_trace s ++ tr)%list /\
      Forall (fun c => c = os_path_exists p \/ c = os_remove p) tr.
Proof.
  intros Hd. exec. unfold Fs.exists_, Fs.isdir, Fs.isfile in *. cbn.
  destruct (st_fs s !! p) as [[c|]|] eqn:E; cbn.
  - unfold Fs.isfile. cbn. rewrite E. cbn. eexists; split; [reflexivity|]. cbn.
    repeat (split; [reflexivity|]).
    exists [os_path_exists p; os_remove p]. rewrite <- app_assoc. split; [reflexivity|].
    constructor; [left; reflexivity|].
    constructor; [right; reflexivity|]. constructor.
  - discriminate.
  - eexists; split; [reflexivity|]. cbn. rewrite delete_id by exact E.
    repeat (split; [reflexivity|]).
    exists [os_path_exists p]. split; [reflexivity|].
    constructor; [left; reflexivity|]. constructor.
Qed.

Lemma release_step_directory (p : string) (l : list string) (s : State) :
  Fs.isdir (st_fs s) p = true ->
  exists s', run_quiet w (release_loop (p :: l)) s = Raised (OSError p) s' /\
    st_fs s' = st_fs s.
Proof.
  intros Hd. exec. unfold Fs.exists_, Fs.isdir, Fs.isfile in *. cbn.
  destruct (st_fs s !! p) as [[c|]|] eqn:E; try discriminate; cbn.
  unfold Fs.isfile. cbn. rewrite E. cbn. eexists; split; reflexivity.
Qed.

(** What is left of a filesystem once the paths of [l] are gone. *)
Lemma lookup_after_delete (fs fs1 fs2 : FS) (a : string) (l : list string) :
  (forall p, fs1 !! p = delete a fs !! p) ->
  (forall p, fs2 !! p = if bool_decide (p ∈ l) then None else fs1 !! p) ->
  forall p, fs2 !! p = if bool_decide (p ∈ a :: l) then None else fs !! p.
Proof.
  intros H1 H2 p. rewrite H2, H1.
  destruct (decide (p = a)) as [->|Hne].
  - rewrite lookup_delete_eq, (bool_decide_eq_true_2 (a ∈ a :: l)) by left.
    case_bool_decide; reflexivity.
  - rewrite lookup_delete_ne by congruence.
    repeat case_bool_decide; try reflexivity.
    + exfalso. match goal with H : ¬ _ ∈ _ :: _ |- _ => apply H end. right. assumption.
    + exfalso. match goal with H : _ ∈ _ :: _ |- _ =>
        apply elem_of_cons in H as [?|?] end; congruence.
Qed.

Lemma isdir_after_delete (fs : FS) (a p : string) :
  Fs.isdir fs p = false -> Fs.isdir (delete a fs) p = false.
Proof.
  unfold Fs.isdir. intros H. destruct (decide (p = a)) as [->|Hne].
  - rewrite lookup_delete_eq. reflexivity.
  - rewrite lookup_delete_ne by congruence. exact H.
Qed.

Lemma release_loop_regular (l : list string) (s : State) :
  (forall p, p ∈ l -> Fs.isdir (st_fs s) p = false) ->
  exists s', run_quiet w (release_loop l) s = Returned tt s' /\
    (forall p, st_fs s' !! p = if bool_decide (p ∈ l) then None else st_fs s !! p) /\
    st_temp_files s' = st_temp_files s /\ st_uuids s' = st_uuids s /\
    st_signal s' = st_signal s /\
    exists tr, st_trace s' = (st_trace s ++ tr)%list /\ Forall (cleanup_call l) tr.
Proof.
  revert s. induction l as [|a l IH]; intros s Hl.
  - exists s. cbn. split; [reflexivity|]. split.
    { intros p. rewrite bool_decide_eq_false_2; [reflexivity|]. apply not_elem_of_nil. }
    repeat (split; [reflexivity|]). exists []. rewrite app_nil_r. split; constructor.
  - destruct (release_step_regular a l s)
      as (s1 & -> & Hfs & Htf & Hu & Hsg & tr1 & Htr1 & Hc1).
    { apply Hl. left. }
    destruct (IH s1) as (s2 & -> & Hfs2 & Htf2 & Hu2 & Hsg2 & tr2 & Htr2 & Hc2).
    { intros p Hp. rewrite Hfs. apply isdir_after_delete, Hl. right. exact Hp. }
    exists s2. split; [reflexivity|]. split.
    { eapply lookup_after_delete; [|exact Hfs2]. intros p. rewrite Hfs. reflexivity. }
    repeat (split; [congruence|]).
    exists (tr1 ++ tr2)%list. rewrite Htr2, Htr1, app_assoc. split; [reflexivity|].
    apply Forall_app. split.
    + eapply Forall_impl; [exact Hc1|]. intros c [->| ->]; cbn; left.
    + eapply Forall_impl; [exact Hc2|]. intros c Hc.
      destruct c; cbn in *; try assumption; right; assumption.
Qed.

Lemma release_loop_directory (l1 l2 : list string) (d : string) (s : State) :
  (forall p, p ∈ l1 -> Fs.isdir (st_fs s) p = false) ->
  Fs.isdir (st_fs s) d = true ->
  exists s', run_quiet w (release_loop (l1 ++ d :: l2)) s = Raised (OSError d) s' /\
    (forall p, st_fs s' !! p = if bool_decide (p ∈ l1) then None else st_fs s !! p).
Proof.
  revert s. induction l1 as [|a l1 IH]; intros s Hl Hd.
  - destruct (release_step_directory d l2 s Hd) as (s' & E & Hfs).
    exists s'. split; [exact E|]. intros p. rewrite Hfs.
    rewrite bool_decide_eq_false_2; [reflexivity|]. apply not_elem_of_nil.
  - cbn [app].
    destruct (release_step_regular a (l1 ++ d :: l2) s) as (s1 & -> & Hfs & _).
    { apply Hl. left. }
    assert (Hda : d <> a).
    { intros ->. rewrite Hl in Hd by left. discriminate. }
    destruct (IH s1) as (s2 & -> & Hfs2).
    { intros p Hp. rewrite Hfs. apply isdir_after_delete, Hl. right. exact Hp. }
    { rewrite Hfs. unfold Fs.isdir. rewrite lookup_delete_ne by congruence. exact Hd. }
    exists s2. split; [reflexivity|].
    eapply lookup_after_delete; [|exact Hfs2]. intros p. rewrite Hfs. reflexivity.
Qed.

Lemma cleanup_temp_files_quiet (l : list string) (s : State) :
  (forall p, p ∈ l -> Fs.isdir (st_fs s) p = false) ->
  exists s', run_quiet w (cleanup_temp_files l) s = Returned tt s' /\
    (forall p, st_fs s' !! p = if bool_decide (p ∈ l) then None else st_fs s !! p) /\
    st_temp_files s' = st_temp_files s /\ st_uuids s' = st_uuids s /\
    st_signal s' = st_signal s /\
    exists tr, st_trace s' = (st_trace s ++ tr)%list /\ Forall (cleanup_call l) tr.
Proof.
  intros Hl. unfold cleanup_temp_files. rewrite run_quiet_bind.
  destruct (release_loop_regular l s Hl)
    as (s1 & -> & Hfs & Htf & Hu & Hsg & tr & Htr & Hc).
  exec. eexists. split; [reflexivity|]. cbn.
  repeat (split; [assumption|]).
  exists (tr ++ [print "[LOG] Arquivos temporários removidos."])%list.
  rewrite Htr, app_assoc. split; [reflexivity|].
  apply Forall_app. split; [exact Hc|]. repeat constructor.
Qed.

Lemma cleanup_temp_files_directory (l1 l2 : list string) (d : string) (s : State) :
  (forall p, p ∈ l1 -> Fs.isdir (st_fs s) p = false) ->
  Fs.isdir (st_fs s) d = true ->
  exists s', run_quiet w (cleanup_temp_files (l1 ++ d :: l2)) s = Raised (OSError d) s' /\
    (forall p, st_fs s' !! p = if bool_decide (p ∈ l1) then None else st_fs s !! p).
Proof.
  intros Hl Hd. unfold cleanup_temp_files. rewrite run_quiet_bind.
  destruct (release_loop_directory l1 l2 d s Hl Hd) as (s1 & -> & Hfs).
  exists s1. split; [reflexivity|exact Hfs].
Qed.

End Release.




(** ** The stages: [transcribe_audio] and [download_video] *)

(** C7: [transcribe_audio] opens the destination only after both the
    speech-to-text call and the correction call have returned.  When either
    raises, the function raises that exception and the filesystem is as it
    was; when both return it writes the corrected text (unless the
    destination is a directory, which [open] refuses, again changing
    nothing). *)
Theorem transcribe_audio_writes_last (w : World)
    (audio_path output_txt_path model tool : string) (s : State) :
  st_signal s = None ->
  match w_transcribe w model (st_fs s) audio_path with
  | inl e =>
      exists s', run w (transcribe_audio audio_path output_txt_path model tool) s
                 = Raised e s' /\ st_fs s' = st_fs s
  | inr text =>
      match w_correct w tool text with
      | inl e =>
          exists s', run w (transcribe_audio audio_path output_txt_path model tool) s
                     = Raised e s' /\ st_fs s' = st_fs s
      | inr corrected_text =>
          if Fs.isdir (st_fs s) output_txt_path then
            exists s', run w (transcribe_audio audio_path output_txt_path model tool) s
                       = Raised (OSError output_txt_path) s' /\ st_fs s' = st_fs s
          else
            exists s', run w (transcribe_audio audio_path output_txt_path model tool) s
                       = Returned tt s' /\
                       st_fs s' = <[output_txt_path := File corrected_text]> (st_fs s)
      end
  end.
Proof.
  intros Hs. rewrite run_no_signal by exact Hs.
  destruct (w_transcribe w model (st_fs s) audio_path) as [e|text] eqn:Et.
  { exec. rewrite Et. exec. eexists; split; reflexivity. }
  destruct (w_correct w tool text) as [e|corrected] eqn:Ec.
  { exec. rewrite Et. exec. rewrite Ec. exec. eexists; split; reflexivity. }
  destruct (Fs.isdir (st_fs s) output_txt_path) eqn:Ed.
  { exec. rewrite Et. exec. rewrite Ec. exec. rewrite Ed. exec.
    eexists; split; reflexivity. }
  exec. rewrite Et. exec. rewrite Ec. exec. rewrite Ed. exec.
  rewrite lookup_insert_eq. exec.
  eexists; split; [reflexivity|]. cbn. apply insert_insert_eq.
Qed.

Lemma transcribe_audio_writes_last_witness :
  exists s',
    run Scenario.correction_fails
      (transcribe_audio "/home/u/.audiowise/mono_audio_a1.mp3" "talk.txt" "base" "pt-BR")
      (idle ∅)
    = Raised (LibraryError "LanguageTool server died") s' /\
    st_fs s' = ∅.
Proof.
  exact (transcribe_audio_writes_last Scenario.correction_fails
           "/home/u/.audiowise/mono_audio_a1.mp3" "talk.txt" "base" "pt-BR"
           (idle ∅) eq_refl).
Defined.

Section Download.
Context (w : World).

(** The loop [for chunk in response.iter_content(...): file.write(chunk)]. *)
Lemma write_chunks (p : string) (chunks : list string) (content : string) (s : State) :
  st_fs s !! p = Some (File content) ->
  exists s',
    run_quiet w (for_each chunks (fun chunk => call (file_write p chunk))) s
    = Returned tt s' /\
    st_fs s' = <[p := File (content +:+ String.concat "" chunks)]> (st_fs s) /\
    st_trace s' = (st_trace s ++ map (file_write p) chunks)%list /\
    st_temp_files s' = st_temp_files s /\ st_uuids s' = st_uuids s /\
    st_signal s' = st_signal s.
Proof.
  revert content s. induction chunks as [|c chunks IH]; intros content s Hp.
  - exists s. cbn. split; [reflexivity|]. rewrite app_empty_r, app_nil_r.
    rewrite insert_id by exact Hp. auto.
  - cbn [for_each]. rewrite run_quiet_bind. exec. rewrite Hp. exec.
    edestruct (IH (content +:+ c)) as (s' & -> & Hfs & Htr & Htf & Hu & Hsg).
    { cbn. apply lookup_insert_eq. }
    exists s'. split; [reflexivity|]. cbn in *.
    rewrite Hfs, Htr, insert_insert_eq, <- app_assoc. cbn.
    repeat split; try assumption.
    f_equal. f_equal. rewrite app_assoc_str. f_equal.
    destruct chunks; cbn; [rewrite app_empty_r|]; reflexivity.
Qed.

End Download.




(** ** Where the script leaves scratch files behind *)

(** C1 at its failing input: single-item mode, a local video, the audio
    track extracted and the mono conversion failing.  [main] prints the
    error and returns, and the extracted-audio scratch file is still there:
    the [except] of the single-item branch releases nothing. *)
Lemma single_item_keeps_audio_after_failed_downmix :
  exists s',
    run_main Scenario.downmix_fails Scenario.fs_talk None
      "talk.mp4" "talk.txt" "base" "pt-BR" = Returned tt s' /\
    st_fs s' !! "/home/u/.audiowise/audio_a1.mp3" = Some (File "pcm") /\
    st_trace s' =
      [subprocess_run ["which"; "ffmpeg"]; whisper_load_model "base";
       LanguageTool "pt-BR"; whisper_load_model "base"; LanguageTool "pt-BR";
       os_path_isdir "talk.mp4"; os_path_exists "talk.mp4";
       os_path_isdir "talk.txt"; os_path_exists "talk.txt";
       uuid4_hex; os_path_expanduser "~";
       os_path_exists "/home/u/.audiowise"; os_makedirs "/home/u/.audiowise";
       temp_files_extend ["/home/u/.audiowise/audio_a1.mp3";
                          "/home/u/.audiowise/mono_audio_a1.mp3"];
       print "[LOG] Processo iniciado.";
       print "[LOG] Iniciando extração do áudio...";
       subprocess_run ["ffmpeg"; "-i"; "talk.mp4"; "-q:a"; "0"; "-map"; "a";
                       "/home/u/.audiowise/audio_a1.mp3"];
       print "[LOG] Extração do áudio concluída.";
       subprocess_run ["ffmpeg"; "-i"; "/home/u/.audiowise/audio_a1.mp3";
                       "-ac"; "1"; "/home/u/.audiowise/mono_audio_a1.mp3"];
       print_exn "Erro durante o processo: "
         (CalledProcessError 1
            ["ffmpeg"; "-i"; "/home/u/.audiowise/audio_a1.mp3";
             "-ac"; "1"; "/home/u/.audiowise/mono_audio_a1.mp3"])].
Proof. eexists. split; [|split]; vm_compute; reflexivity. Qed.

(** The sibling path: on the same failure the batch driver's [except]
    calls [cleanup_temp_files], and the audio scratch file is gone. *)
Lemma folder_item_releases_audio_after_failed_downmix :
  exists s',
    run_main Scenario.downmix_fails Scenario.fs_talk_folder None
      "in" "out" "base" "pt-BR" = Returned tt s' /\
    st_fs s' !! "/home/u/.audiowise/audio_a1.mp3" = None /\
    List.last (st_trace s') uuid4_hex = print "[LOG] Arquivos temporários removidos.".
Proof. eexists. split; [|split]; vm_compute; reflexivity. Qed.

(** C3 at its failing input: folder mode, a signal delivered after the
    audio of the first video was extracted (22 calls into the run).  The
    handler reads [temp_files] of [main], which [process_folder] never
    extends (it fills a list of its own), releases nothing and exits with
    status 1; the scratch file stays. *)
Lemma folder_signal_leaves_audio_scratch :
  exists s',
    run_main Scenario.healthy Scenario.fs_folder (Some 22%nat)
      "in" "out" "base" "pt-BR" = Exited 1 s' /\
    st_temp_files s' = [] /\
    st_fs s' !! "/home/u/.audiowise/audio_a1.mp3" = Some (File "pcm").
Proof. eexists. split; [|split]; vm_compute; reflexivity. Qed.

(** In single-item mode the same signal finds both audio names in the
    list, and the extracted file is removed before the exit. *)
Lemma single_item_signal_releases_audio_scratch :
  exists s',
    run_main Scenario.healthy Scenario.fs_talk (Some 17%nat)
      "talk.mp4" "talk.txt" "base" "pt-BR" = Exited 1 s' /\
    st_temp_files s' = ["/home/u/.audiowise/audio_a1.mp3";
                        "/home/u/.audiowise/mono_audio_a1.mp3"] /\
    st_fs s' !! "/home/u/.audiowise/audio_a1.mp3" = None.
Proof. eexists. split; [|split]; vm_compute; reflexivity. Qed.

(** C10 at its failing input: a URL that names no local path.  The
    existence test of line 164 comes before the prefix test, so [main]
    reports a missing input file and returns; [requests.get] is never
    called. *)
Lemma url_input_is_rejected_before_fetch :
  exists s',
    run_main Scenario.answers_200 Scenario.fs_talk None
      "http://example.com/clip.mp4" "clip.txt" "base" "pt-BR" = Returned tt s' /\
    st_fs s' = Scenario.fs_talk /\
    st_trace s' =
      [subprocess_run ["which"; "ffmpeg"]; whisper_load_model "base";
       LanguageTool "pt-BR"; whisper_load_model "base"; LanguageTool "pt-BR";
       os_path_isdir "http://example.com/clip.mp4";
       os_path_exists "http://example.com/clip.mp4";
       print "Erro: O arquivo de entrada 'http://example.com/clip.mp4' não existe."].
Proof. eexists. split; [|split]; vm_compute; reflexivity. Qed.

(** ** Path names *)

Section PathNames.

Lemma length_app (a b : string) :
  String.length (a +:+ b) = (String.length a + String.length b)%nat.
Proof.
  induction a as [|x a IH]; [reflexivity|]. rewrite app_cons. cbn. rewrite IH. reflexivity.
Qed.

Lemma app_nonempty (a b : string) : b <> "" -> a +:+ b <> "".
Proof.
  intros Hb H. apply (f_equal String.length) in H. rewrite length_app in H.
  destruct b; [congruence|]. cbn in H. lia.
Qed.

Lemma last_char_app (a b : string) : b <> "" -> Str.last_char (a +:+ b) = Str.last_char b.
Proof.
  intros Hb. induction a as [|x a IH]; [reflexivity|].
  rewrite app_cons. cbn. rewrite IH.
  destruct (a +:+ b) eqn:E; [|reflexivity].
  exfalso. revert E. apply app_nonempty. exact Hb.
Qed.

Lemma last_char_join (a b : string) :
  b <> "" -> Str.last_char (posixpath.join a b) = Str.last_char b.
Proof.
  intros Hb. unfold posixpath.join.
  destruct (Str.startswith b "/"); [reflexivity|].
  destruct (String.eqb a "" || Str.endswith_char a "/").
  - apply last_char_app. exact Hb.
  - rewrite last_char_app; [apply last_char_app; exact Hb|]. apply app_nonempty. exact Hb.
Qed.

Lemma last_char_suffixed (d pre u suf : string) :
  suf <> "" ->
  Str.last_char (posixpath.join d (pre +:+ u +:+ suf)) = Str.last_char suf.
Proof.
  intros Hs. rewrite last_char_join, !last_char_app; auto using app_nonempty.
Qed.

Lemma last_char_audio (d u : string) : Str.last_char (audio_scratch d u) = Some "3"%char.
Proof. unfold audio_scratch. rewrite last_char_suffixed; [reflexivity|discriminate]. Qed.

Lemma last_char_mono (d u : string) : Str.last_char (mono_scratch d u) = Some "3"%char.
Proof. unfold mono_scratch. rewrite last_char_suffixed; [reflexivity|discriminate]. Qed.

Lemma last_char_video (d u : string) : Str.last_char (video_scratch d u) = Some "4"%char.
Proof. unfold video_scratch. rewrite last_char_suffixed; [reflexivity|discriminate]. Qed.

Lemma last_char_transcript (d f : string) :
  Str.last_char (transcript_path d f) = Some "t"%char.
Proof.
  unfold transcript_path.
  rewrite last_char_join, last_char_app; try discriminate; [reflexivity|].
  apply app_nonempty. discriminate.
Qed.

Lemma last_char_temp_dir (w : World) : Str.last_char (temp_dir_of w) = Some "e"%char.
Proof. unfold temp_dir_of. rewrite last_char_join; [reflexivity|discriminate]. Qed.

Lemma last_char_scratch (w : World) (p : string) :
  scratch_name w p -> Str.last_char p = Some "3"%char.
Proof. intros [n [->| ->]]; [apply last_char_audio|apply last_char_mono]. Qed.

Lemma transcript_not_scratch (w : World) (d f : string) :
  ~ scratch_name w (transcript_path d f).
Proof.
  intros H. apply last_char_scratch in H. rewrite last_char_transcript in H. discriminate.
Qed.

Lemma temp_dir_not_scratch (w : World) : ~ scratch_name w (temp_dir_of w).
Proof.
  intros H. apply last_char_scratch in H. rewrite last_char_temp_dir in H. discriminate.
Qed.

Lemma audio_is_scratch (w : World) (n : nat) : scratch_name w (audio_of w n).
Proof. exists n. left. reflexivity. Qed.

Lemma mono_is_scratch (w : World) (n : nat) : scratch_name w (mono_of w n).
Proof. exists n. right. reflexivity. Qed.

Lemma app_inv_tail_str (a b c : string) : a +:+ c = b +:+ c -> a = b.
Proof.
  revert b. induction a as [|x a IH]; intros [|y b] H.
  - reflexivity.
  - exfalso. apply (f_equal String.length) in H. rewrite !length_app in H.
    cbn in H. lia.
  - exfalso. apply (f_equal String.length) in H. rewrite !length_app in H.
    cbn in H. lia.
  - rewrite !app_cons in H. injection H as -> H. f_equal. apply IH. exact H.
Qed.

Lemma prefix_app (a b : string) : String.prefix a (a +:+ b) = true.
Proof.
  induction a as [|x a IH]; [destruct b; reflexivity|].
  rewrite app_cons. cbn. destruct (ascii_dec x x); [exact IH|congruence].
Qed.

Lemma processing_line_inj (f g : string) : processing_line f = processing_line g -> f = g.
Proof.
  unfold processing_line. intros H.
  apply (inj (String.append "[LOG] Processando arquivo: ")) in H.
  apply app_inv_tail_str in H. exact H.
Qed.

End PathNames.

(** ** Filesystems that differ on a few paths *)

Section Frames.

Lemma unchanged_refl (P : string -> Prop) (fs : FS) : unchanged_outside P fs fs.
Proof. intros p _. reflexivity. Qed.

Lemma unchanged_insert (P : string -> Prop) (fs fs' : FS) (k : string) (v : node) :
  P k -> unchanged_outside P fs fs' -> unchanged_outside P fs (<[k := v]> fs').
Proof.
  intros Hk H p Hp. rewrite lookup_insert_ne; [apply H; exact Hp|].
  intros ->. contradiction.
Qed.

Lemma unchanged_delete (P : string -> Prop) (fs fs' : FS) (k : string) :
  P k -> unchanged_outside P fs fs' -> unchanged_outside P fs (delete k fs').
Proof.
  intros Hk H p Hp. rewrite lookup_delete_ne; [apply H; exact Hp|].
  intros ->. contradiction.
Qed.

Lemma unchanged_weaken (P Q : string -> Prop) (fs fs' : FS) :
  (forall p, P p -> Q p) -> unchanged_outside P fs fs' -> unchanged_outside Q fs fs'.
Proof. intros HPQ H p Hp. apply H. intros HP. apply Hp, HPQ, HP. Qed.

Lemma unchanged_trans (P : string -> Prop) (fs1 fs2 fs3 : FS) :
  unchanged_outside P fs1 fs2 -> unchanged_outside P fs2 fs3 ->
  unchanged_outside P fs1 fs3.
Proof. intros H1 H2 p Hp. rewrite H2, H1 by exact Hp. reflexivity. Qed.

Lemma no_new_directory_refl (fs : FS) : no_new_directory fs fs.
Proof. intros p H. exact H. Qed.

Lemma no_new_directory_insert_file (fs fs' : FS) (k c : string) :
  no_new_directory fs fs' -> no_new_directory fs (<[k := File c]> fs').
Proof.
  intros H p. unfold Fs.isdir. destruct (decide (k = p)) as [->|Hne].
  - rewrite lookup_insert_eq. discriminate.
  - rewrite lookup_insert_ne by exact Hne. apply H.
Qed.

Lemma no_new_directory_delete (fs fs' : FS) (k : string) :
  no_new_directory fs fs' -> no_new_directory fs (delete k fs').
Proof.
  intros H p. unfold Fs.isdir. destruct (decide (k = p)) as [->|Hne].
  - rewrite lookup_delete_eq. discriminate.
  - rewrite lookup_delete_ne by exact Hne. apply H.
Qed.

Lemma lookup_delete_delete (fs : FS) (a b : string) :
  delete b (delete a fs) !! a = None /\ delete b (delete a fs) !! b = None.
Proof.
  split.
  - destruct (decide (b = a)) as [->|Hne]; [apply lookup_delete_eq|].
    rewrite lookup_delete_ne by exact Hne. apply lookup_delete_eq.
  - apply lookup_delete_eq.
Qed.

Lemma exists_false_lookup (fs : FS) (p : string) :
  Fs.exists_ fs p = false -> fs !! p = None.
Proof. unfold Fs.exists_. destruct (fs !! p); congruence. Qed.

Lemma exists_true_lookup (fs : FS) (p : string) :
  Fs.exists_ fs p = true -> is_Some (fs !! p).
Proof. unfold Fs.exists_. destruct (fs !! p); [eauto|congruence]. Qed.

End Frames.

Ltac frame_tac :=
  repeat first
    [ apply unchanged_refl
    | apply unchanged_insert; [tauto|]
    | apply unchanged_delete; [tauto|]
    | apply no_new_directory_refl
    | apply no_new_directory_insert_file
    | apply no_new_directory_delete ].

Ltac print_case :=
  first [ intros _; reflexivity
        | let H := fresh in intros H; vm_compute in H; discriminate H ].

Ltac call_case :=
  lazymatch goal with
  | |- item_call _ _ _ _ (print _) => unfold item_call; print_case
  | |- item_call _ _ _ _ (subprocess_run _) =>
      unfold item_call; let E := fresh in
      intros ? E; cbv [extraction_source] in E;
      first [discriminate E | injection E as <-; reflexivity]
  | |- item_call _ _ _ _ _ => first [exact I | reflexivity | assumption]
  end.

Ltac trace_tac :=
  eexists; split; [cbn; rewrite <- ?app_assoc; cbn [app]; reflexivity|];
  split; [repeat (constructor; [call_case|]); constructor|].

Ltac common_leaf :=
  cbn; split; [assumption|]; split; [reflexivity|]; split; [reflexivity|];
  split; [frame_tac|]; split; [frame_tac|]; trace_tac; left.

Ltac raised_leaf :=
  eexists; split; [right; eexists; reflexivity|]; common_leaf.

(** ** One item of a folder run *)

Section Item.
Context (w : World).

(** The [try] block: it returns with both scratch files gone and the
    transcript written, or it raises; either way it touches only the two
    scratch paths and the transcript, and creates no directory. *)
Lemma process_video_steps_quiet (input_folder output_folder model tool f audio mono : string)
    (s : State) :
  st_signal s = None ->
  scratch_name w audio -> scratch_name w mono ->
  exists s',
    ((run_quiet w
        (process_video_steps f (posixpath.join input_folder f) audio mono
           (transcript_path output_folder f) model tool) s
      = Returned tt s' /\
      st_fs s' !! audio = None /\ st_fs s' !! mono = None /\
      is_Some (st_fs s' !! transcript_path output_folder f))
     \/ exists e,
      run_quiet w
        (process_video_steps f (posixpath.join input_folder f) audio mono
           (transcript_path output_folder f) model tool) s
      = Raised e s') /\
    st_signal s' = None /\ st_temp_files s' = st_temp_files s /\
    st_uuids s' = st_uuids s /\
    unchanged_outside
      (fun p => p = audio \/ p = mono \/ p = transcript_path output_folder f)
      (st_fs s) (st_fs s') /\
    no_new_directory (st_fs s) (st_fs s') /\
    exists tr, st_trace s' = (st_trace s ++ tr)%list /\
      Forall (item_call w input_folder output_folder f) tr /\
      print (processing_line f) ∈ tr.
Proof.
  intros Hs Haudio Hmono.
  assert (Hna : transcript_path output_folder f <> audio)
    by (intros <-; exact (transcript_not_scratch _ _ _ Haudio)).
  assert (Hnm : transcript_path output_folder f <> mono)
    by (intros <-; exact (transcript_not_scratch _ _ _ Hmono)).
  unfold process_video_steps. exec.
  destruct (w_run w _ (st_fs s)) as [code1 [bytes1|]] eqn:E1; exec;
  (destruct (Z.eqb_spec code1 0) as [->|Hc1]; exec; [|raised_leaf]).
  all: match goal with |- context [w_run w ?a ?fs] =>
         destruct (w_run w a fs) as [code2 [bytes2|]] eqn:E2 end; exec.
  all: (destruct (Z.eqb_spec code2 0) as [->|Hc2]; exec; [|raised_leaf]).
  all: match goal with |- context [w_transcribe w ?m ?fs ?a] =>
         destruct (w_transcribe w m fs a) as [e3|text] eqn:E3 end; exec.
  all: try raised_leaf.
  all: destruct (w_correct w tool text) as [e4|corrected] eqn:E4; exec.
  all: try raised_leaf.
  all: match goal with |- context [Fs.isdir ?fs ?p] =>
         destruct (Fs.isdir fs p) eqn:Ed end; exec.
  all: try raised_leaf.
  all: rewrite lookup_insert_eq; exec.
  all: match goal with |- context [Fs.isfile ?fs ?p] =>
         destruct (Fs.isfile fs p) eqn:Ea end; exec.
  all: try raised_leaf.
  all: match goal with |- context [Fs.isfile ?fs ?p] =>
         destruct (Fs.isfile fs p) eqn:Em end; exec.
  all: try raised_leaf.
  all: eexists; split;
    [ left; split; [reflexivity|]; cbn;
      split; [apply lookup_delete_delete|]; split; [apply lookup_delete_delete|];
      rewrite !lookup_delete_ne by congruence;
      rewrite lookup_insert_eq; eauto
    | common_leaf ].
Qed.

End Item.

#[local] Arguments process_video_steps : simpl never.
#[local] Arguments process_video_failed : simpl never.
#[local] Arguments cleanup_temp_files : simpl never.
#[local] Arguments posixpath.join : simpl never.
#[local] Arguments temp_dir_of : simpl never.
#[local] Arguments audio_of : simpl never.
#[local] Arguments mono_of : simpl never.
#[local] Arguments audio_scratch : simpl never.
#[local] Arguments mono_scratch : simpl never.
#[local] Arguments transcript_path : simpl never.

Ltac fold_names s :=
  change (audio_scratch (temp_dir_of ?w) (w_uuid ?w (st_uuids s)))
    with (audio_of w (st_uuids s));
  change (mono_scratch (temp_dir_of ?w) (w_uuid ?w (st_uuids s)))
    with (mono_of w (st_uuids s));
  set (n := st_uuids s) in *.

Section ItemRun.
Context (w : World).

Lemma cleanup_call_item (input_folder output_folder f : string) (l : list string)
    (c : Call) :
  (forall p, p ∈ l -> scratch_name w p) ->
  cleanup_call l c -> item_call w input_folder output_folder f c.
Proof.
  intros Hl. destruct c; cbn; try tauto.
  - intros ->. print_case.
  - apply Hl.
Qed.

Lemma no_scratch_directory_insert_dir (fs : FS) (k : string) :
  ~ scratch_name w k -> no_scratch_directory w fs ->
  no_scratch_directory w (<[k := Dir]> fs).
Proof.
  intros Hk H p Hp. unfold Fs.isdir. rewrite lookup_insert_ne; [apply H, Hp|].
  intros ->. contradiction.
Qed.

Lemma no_scratch_directory_mono (fs fs' : FS) :
  no_new_directory fs fs' -> no_scratch_directory w fs -> no_scratch_directory w fs'.
Proof.
  intros Hn H p Hp. destruct (Fs.isdir fs' p) eqn:E; [|reflexivity].
  apply Hn in E. rewrite H in E by exact Hp. discriminate.
Qed.

Lemma released_scratch (fs : FS) (l : list string) (p : string) :
  released w fs l -> p ∈ l -> scratch_name w p.
Proof. intros H Hp. apply H, Hp. Qed.

(** The [try] statement of one iteration, from the state in which the
    scratch names have been chosen. *)
Lemma process_video_job_quiet (input_folder output_folder model tool : string)
    (temp_files : list string) (f : string) (n : nat) (s : State) :
  st_signal s = None ->
  no_scratch_directory w (st_fs s) ->
  released w (st_fs s) temp_files ->
  exists s',
    run_quiet w
      (try_except
         (process_video_steps f (posixpath.join input_folder f)
            (audio_of w n) (mono_of w n) (transcript_path output_folder f) model tool)
         (process_video_failed f (temp_files ++ [audio_of w n; mono_of w n])) ;;
       Ret (temp_files ++ [audio_of w n; mono_of w n])%list) s
    = Returned (temp_files ++ [audio_of w n; mono_of w n])%list s' /\
    st_signal s' = None /\ st_temp_files s' = st_temp_files s /\
    st_uuids s' = st_uuids s /\
    no_scratch_directory w (st_fs s') /\
    released w (st_fs s') (temp_files ++ [audio_of w n; mono_of w n]) /\
    unchanged_outside
      (fun p => scratch_name w p \/ p = transcript_path output_folder f)
      (st_fs s) (st_fs s') /\
    exists tr, st_trace s' = (st_trace s ++ tr)%list /\
      Forall (item_call w input_folder output_folder f) tr /\
      (is_Some (st_fs s' !! transcript_path output_folder f)
       \/ exists e, print_exn (failure_line f) e ∈ tr) /\
      print (processing_line f) ∈ tr.
Proof.
  intros Hs Hnd Hrel.
  set (tf' := (temp_files ++ [audio_of w n; mono_of w n])%list).
  assert (Hscr : forall p, p ∈ tf' -> scratch_name w p).
  { intros p Hp. apply elem_of_app in Hp as [Hp|Hp].
    - eapply released_scratch; eassumption.
    - rewrite !elem_of_cons in Hp. destruct Hp as [-> | [-> | Hp]].
      + apply audio_is_scratch.
      + apply mono_is_scratch.
      + exfalso. eapply not_elem_of_nil, Hp. }
  rewrite run_quiet_bind, run_quiet_try.
  destruct (process_video_steps_quiet w input_folder output_folder model tool f
              (audio_of w n) (mono_of w n) s Hs
              (audio_is_scratch w n) (mono_is_scratch w n))
    as (s1 & Hout & Hs1 & Htf1 & Hu1 & Hun1 & Hnn1 & tr1 & Htr1 & Hc1 & Hp1).
  pose proof (no_scratch_directory_mono _ _ Hnn1 Hnd) as Hnd1.
  destruct Hout as [(-> & Ha & Hm & Hd)|(e & ->)].
  - (* the steps returned *)
    exists s1. cbn. split; [reflexivity|].
    repeat (split; [assumption|]).
    split.
    { intros p Hp. split; [apply Hscr, Hp|].
      apply elem_of_app in Hp as [Hp|Hp].
      - destruct (decide (p = audio_of w n)) as [->|Hpa]; [exact Ha|].
        destruct (decide (p = mono_of w n)) as [->|Hpm]; [exact Hm|].
        rewrite Hun1; [apply Hrel, Hp|].
        intros [?|[?|Hpd]]; try contradiction.
        subst p. eapply transcript_not_scratch, released_scratch; eassumption.
      - rewrite !elem_of_cons in Hp. destruct Hp as [-> | [-> | Hp]]; try assumption.
        exfalso. eapply not_elem_of_nil, Hp. }
    split.
    { eapply unchanged_weaken; [|exact Hun1].
      intros p [-> | [-> | ->]]; [left; apply audio_is_scratch
                             |left; apply mono_is_scratch|right; reflexivity]. }
    exists tr1. split; [assumption|]. split; [assumption|]. split; [left|]; assumption.
  - (* the steps raised: the handler releases the list *)
    unfold process_video_failed. rewrite run_quiet_bind. exec.
    edestruct (cleanup_temp_files_quiet w tf')
      as (s2 & -> & Hfs2 & Htf2 & Hu2 & Hs2 & tr2 & Htr2 & Hc2).
    { cbn. intros p Hp. apply Hnd1, Hscr, Hp. }
    cbn in *.
    exists s2. split; [reflexivity|].
    split; [congruence|]. split; [congruence|]. split; [congruence|].
    split.
    { intros p Hp. unfold Fs.isdir. rewrite Hfs2. case_bool_decide; [reflexivity|].
      apply Hnd1, Hp. }
    split.
    { intros p Hp. split; [apply Hscr, Hp|]. rewrite Hfs2.
      rewrite bool_decide_eq_true_2 by exact Hp. reflexivity. }
    split.
    { intros p Hp. rewrite Hfs2. case_bool_decide as Hin.
      - exfalso. apply Hp. left. apply Hscr, Hin.
      - apply Hun1. intros [-> | [-> | ->]]; apply Hp;
          [left; apply audio_is_scratch|left; apply mono_is_scratch|right; reflexivity]. }
    exists (tr1 ++ print_exn (failure_line f) e :: tr2)%list.
    split.
    { rewrite Htr2, Htr1. rewrite <- !app_assoc. reflexivity. }
    split.
    { apply Forall_app. split; [exact Hc1|]. constructor; [exact I|].
      eapply Forall_impl; [exact Hc2|]. intros c. apply cleanup_call_item. exact Hscr. }
    split.
    { right. exists e. apply elem_of_app. right. left. }
    apply elem_of_app. left. exact Hp1.
Qed.

Lemma process_video_quiet (input_folder output_folder model tool : string)
    (temp_files : list string) (f : string) (s : State) :
  st_signal s = None ->
  no_scratch_directory w (st_fs s) ->
  released w (st_fs s) temp_files ->
  exists temp_files' s',
    run_quiet w (process_video input_folder output_folder model tool temp_files f) s
    = Returned temp_files' s' /\
    st_signal s' = None /\ st_temp_files s' = st_temp_files s /\
    no_scratch_directory w (st_fs s') /\
    released w (st_fs s') temp_files' /\
    (st_uuids s <= st_uuids s')%nat /\
    (forall n, (st_uuids s <= n < st_uuids s')%nat ->
               audio_of w n ∈ temp_files' /\ mono_of w n ∈ temp_files') /\
    (forall p, p ∈ temp_files -> p ∈ temp_files') /\
    unchanged_outside
      (fun p => scratch_name w p \/ p = temp_dir_of w
                \/ p = transcript_path output_folder f)
      (st_fs s) (st_fs s') /\
    (forall p, ~ scratch_name w p -> is_Some (st_fs s !! p) ->
               st_fs s' !! p = st_fs s !! p) /\
    (Fs.exists_ (st_fs s) (transcript_path output_folder f) = true ->
     st_fs s' = st_fs s /\ st_uuids s' = st_uuids s /\ temp_files' = temp_files) /\
    exists tr, st_trace s' = (st_trace s ++ tr)%list /\
      Forall (item_call w input_folder output_folder f) tr /\
      (is_Some (st_fs s' !! transcript_path output_folder f)
       \/ exists e, print_exn (failure_line f) e ∈ tr) /\
      (print (skip_line (transcript_path output_folder f)) ∈ tr
       \/ print (processing_line f) ∈ tr).
Proof.
  intros Hs Hnd Hrel.
  unfold process_video. exec.
  destruct (Fs.exists_ (st_fs s) (transcript_path output_folder f)) eqn:Edest; exec.
  { (* the transcript is there: skipped *)
    eexists _, _. split; [reflexivity|]. cbn.
    split; [assumption|]. split; [reflexivity|]. split; [assumption|].
    split; [assumption|]. split; [lia|]. split; [intros n Hn; lia|].
    split; [auto|]. split; [apply unchanged_refl|]. split; [auto|].
    split; [auto|].
    eexists. split; [rewrite <- ?app_assoc; cbn [app]; reflexivity|].
    split; [repeat (constructor; [call_case|]); constructor|].
    split; [left; apply exists_true_lookup; exact Edest|].
    left. right. left. }
  change (posixpath.join (w_home w) ".audiowise") with (temp_dir_of w).
  pose proof (exists_false_lookup _ _ Edest) as Hdest.
  assert (Hdt : transcript_path output_folder f <> temp_dir_of w).
  { intros E. apply (f_equal Str.last_char) in E.
    rewrite last_char_transcript, last_char_temp_dir in E. discriminate. }
  destruct (Fs.exists_ (st_fs s) (temp_dir_of w)) eqn:Etmp; exec.
  - (* the temp directory exists *)
    fold_names s.
    match goal with |- context [run_quiet w _ ?s2] =>
      destruct (process_video_job_quiet input_folder output_folder model tool
                  temp_files f n s2)
        as (s' & -> & Hs' & Htf' & Hu' & Hnd' & Hrel' & Hun' & tr & Htr & Hc & Hd & Hp)
    end; try assumption.
    cbn in *. eexists _, s'. split; [reflexivity|].
    split; [assumption|]. split; [assumption|]. split; [assumption|].
    split; [assumption|]. split; [lia|].
    split.
    { intros k Hk. assert (k = n) as -> by lia.
      split; apply elem_of_app; right; [left|right; left]. }
    split; [intros p Hp'; apply elem_of_app; left; exact Hp'|].
    split.
    { eapply unchanged_weaken; [|exact Hun']. intros p [?|?]; tauto. }
    split.
    { intros p Hns Hex. apply Hun'. intros [? | ->]; [contradiction|].
      rewrite Hdest in Hex. destruct Hex; discriminate. }
    split; [discriminate|].
    eexists. split; [rewrite Htr, <- ?app_assoc; cbn [app]; reflexivity|].
    split.
    { repeat (constructor; [call_case|]). exact Hc. }
    split; [destruct Hd as [Hd|[e He]]; [left; exact Hd|right; exists e; do 4 right; exact He]|].
    right. do 4 right. exact Hp.
  - (* the temp directory is created *)
    rewrite Etmp. exec. fold_names s.
    match goal with |- context [run_quiet w _ ?s2] =>
      destruct (process_video_job_quiet input_folder output_folder model tool
                  temp_files f n s2)
        as (s' & -> & Hs' & Htf' & Hu' & Hnd' & Hrel' & Hun' & tr & Htr & Hc & Hd & Hp)
    end; try assumption.
    { cbn. apply no_scratch_directory_insert_dir;
        [apply temp_dir_not_scratch|assumption]. }
    { cbn. intros p Hp. destruct (Hrel p Hp) as [Hscr Hnone]. split; [exact Hscr|].
      rewrite lookup_insert_ne; [exact Hnone|].
      intros <-. exact (temp_dir_not_scratch w Hscr). }
    cbn in *. eexists _, s'. split; [reflexivity|].
    split; [assumption|]. split; [assumption|]. split; [assumption|].
    split; [assumption|]. split; [lia|].
    split.
    { intros k Hk. assert (k = n) as -> by lia.
      split; apply elem_of_app; right; [left|right; left]. }
    split; [intros p Hp'; apply elem_of_app; left; exact Hp'|].
    split.
    { intros p Hp'. rewrite Hun' by tauto.
      apply lookup_insert_ne. intros <-. tauto. }
    split.
    { intros p Hns Hex. rewrite Hun'.
      - apply lookup_insert_ne. intros <-.
        apply exists_false_lookup in Etmp. rewrite Etmp in Hex.
        destruct Hex; discriminate.
      - intros [? | ->]; [contradiction|].
        rewrite Hdest in Hex. destruct Hex; discriminate. }
    split; [discriminate|].
    eexists. split; [rewrite Htr, <- ?app_assoc; cbn [app]; reflexivity|].
    split.
    { repeat (constructor; [call_case|]). exact Hc. }
    split; [destruct Hd as [Hd|[e He]]; [left; exact Hd|right; exists e; do 5 right; exact He]|].
    right. do 5 right. exact Hp.
Qed.

End ItemRun.

(** ** The folder driver *)

Section Folder.
Context (w : World).

Lemma select_videos_quiet (input_folder : string) (entries : list string) (s : State) :
  exists s',
    run_quiet w (select_videos input_folder entries) s
    = Returned
        (List.filter
           (fun f => Fs.isfile (st_fs s) (posixpath.join input_folder f)
                     && supported_extension (Str.lower (posixpath.splitext f).2))
           entries) s' /\
    st_fs s' = st_fs s /\ st_signal s' = st_signal s /\
    st_temp_files s' = st_temp_files s /\ st_uuids s' = st_uuids s /\
    st_trace s' = (st_trace s
                   ++ map (fun f => os_path_isfile (posixpath.join input_folder f))
                          entries)%list.
Proof.
  revert s. induction entries as [|f entries IH]; intros s.
  - exists s. cbn. rewrite app_nil_r. repeat (split; [reflexivity|]). reflexivity.
  - cbn [select_videos]. rewrite run_quiet_bind. exec. rewrite run_quiet_bind.
    edestruct IH as (s' & -> & Hfs & Hsg & Htf & Hu & Htr).
    exists s'. cbn in *. rewrite Hfs, Htr, <- app_assoc.
    split; [reflexivity|]. repeat (split; [first [reflexivity|assumption]|]). reflexivity.
Qed.

Lemma process_videos_quiet (input_folder output_folder model tool : string)
    (files : list string) :
  forall (temp_files : list string) (s : State),
  st_signal s = None ->
  no_scratch_directory w (st_fs s) ->
  released w (st_fs s) temp_files ->
  exists temp_files' s',
    run_quiet w
      (process_videos input_folder output_folder model tool temp_files files) s
    = Returned temp_files' s' /\
    st_signal s' = None /\ st_temp_files s' = st_temp_files s /\
    no_scratch_directory w (st_fs s') /\
    released w (st_fs s') temp_files' /\
    (st_uuids s <= st_uuids s')%nat /\
    (forall n, (st_uuids s <= n < st_uuids s')%nat ->
               audio_of w n ∈ temp_files' /\ mono_of w n ∈ temp_files') /\
    (forall p, p ∈ temp_files -> p ∈ temp_files') /\
    (forall p, ~ scratch_name w p -> is_Some (st_fs s !! p) ->
               st_fs s' !! p = st_fs s !! p) /\
    exists tr, st_trace s' = (st_trace s ++ tr)%list /\
      Forall (fun c => exists f, f ∈ files
                                 /\ item_call w input_folder output_folder f c) tr /\
      forall f, f ∈ files ->
        (is_Some (st_fs s' !! transcript_path output_folder f)
         \/ exists e, print_exn (failure_line f) e ∈ tr) /\
        (print (skip_line (transcript_path output_folder f)) ∈ tr
         \/ print (processing_line f) ∈ tr).
Proof.
  induction files as [|f files IH]; intros temp_files s Hs Hnd Hrel.
  - exists temp_files, s. cbn. split; [reflexivity|].
    split; [assumption|]. split; [reflexivity|]. split; [assumption|].
    split; [assumption|]. split; [lia|].
    split; [intros n Hn; lia|]. split; [auto|]. split; [auto|].
    exists []. rewrite app_nil_r. split; [reflexivity|]. split; [constructor|].
    intros f Hf. exfalso. eapply not_elem_of_nil, Hf.
  - cbn [process_videos]. rewrite run_quiet_bind.
    destruct (process_video_quiet w input_folder output_folder model tool
                temp_files f s Hs Hnd Hrel)
      as (tf1 & s1 & -> & Hs1 & Htf1 & Hnd1 & Hrel1 & Hu1 & Htok1 & Hsub1 & _
          & Hkeep1 & _ & tr1 & Htr1 & Hc1 & Hd1 & Hv1).
    destruct (IH tf1 s1 Hs1 Hnd1 Hrel1)
      as (tf2 & s2 & -> & Hs2 & Htf2 & Hnd2 & Hrel2 & Hu2 & Htok2 & Hsub2
          & Hkeep2 & tr2 & Htr2 & Hc2 & Hall2).
    exists tf2, s2. split; [reflexivity|].
    split; [assumption|]. split; [congruence|]. split; [assumption|].
    split; [assumption|]. split; [lia|].
    split.
    { intros n Hn. destruct (decide (n < st_uuids s1)%nat) as [Hlt|Hge].
      - destruct (Htok1 n) as [Ha Hm]; [lia|]. split; apply Hsub2; assumption.
      - apply Htok2. lia. }
    split; [auto|].
    split.
    { intros p Hns Hex. rewrite Hkeep2; [apply Hkeep1; assumption|exact Hns|].
      rewrite Hkeep1; assumption. }
    exists (tr1 ++ tr2)%list. split; [rewrite Htr2, Htr1, app_assoc; reflexivity|].
    split.
    { apply Forall_app. split.
      - eapply Forall_impl; [exact Hc1|]. intros c Hc. exists f. split; [left|exact Hc].
      - eapply Forall_impl; [exact Hc2|]. intros c (g & Hg & Hc).
        exists g. split; [right; exact Hg|exact Hc]. }
    intros g Hg. apply elem_of_cons in Hg as [->|Hg].
    + split.
      * destruct Hd1 as [Hd1|[e He]].
        -- left. rewrite Hkeep2; [exact Hd1|apply transcript_not_scratch|exact Hd1].
        -- right. exists e. apply elem_of_app. left. exact He.
      * destruct Hv1 as [Hv1|Hv1]; [left|right]; apply elem_of_app; left; exact Hv1.
    + destruct (Hall2 g Hg) as [Hd Hv]. split.
      * destruct Hd as [Hd|[e He]]; [left; exact Hd|].
        right. exists e. apply elem_of_app. right. exact He.
      * destruct Hv as [Hv|Hv]; [left|right]; apply elem_of_app; right; exact Hv.
Qed.

End Folder.

#[local] Arguments select_videos : simpl never.
#[local] Arguments process_videos : simpl never.

Section FolderRun.
Context (w : World).

Lemma item_call_folder (input_folder output_folder f : string) (sel : list string)
    (c : Call) :
  f ∈ sel -> item_call w input_folder output_folder f c ->
  folder_call w input_folder output_folder sel c.
Proof. intros Hf. destruct c; cbn; try tauto; eauto. Qed.

Lemma isfile_insert_dir (fs : FS) (k p : string) :
  Fs.exists_ fs k = false -> Fs.isfile (<[k := Dir]> fs) p = Fs.isfile fs p.
Proof.
  intros Hk. apply exists_false_lookup in Hk. unfold Fs.isfile.
  destruct (decide (k = p)) as [->|Hne].
  - rewrite lookup_insert_eq, Hk. reflexivity.
  - rewrite lookup_insert_ne by exact Hne. reflexivity.
Qed.

Lemma isdir_insert_dir (fs : FS) (k p : string) :
  Fs.isdir fs p = true -> Fs.isdir (<[k := Dir]> fs) p = true.
Proof.
  unfold Fs.isdir. destruct (decide (k = p)) as [->|Hne].
  - rewrite lookup_insert_eq. reflexivity.
  - rewrite lookup_insert_ne by exact Hne. auto.
Qed.

(** The loop of [process_folder] reached from the state the driver prepares. *)
Lemma process_folder_loop (input_folder output_folder model tool : string)
    (fs0 : FS) (s : State) :
  st_signal s = None ->
  no_scratch_directory w (st_fs s) ->
  (forall p, Fs.isfile (st_fs s) p = Fs.isfile fs0 p) ->
  exists s',
    run_quiet w
      (video_files <- select_videos input_folder (w_listdir w input_folder) ;;
       _ <- process_videos input_folder output_folder model tool [] video_files ;;
       Ret tt) s
    = Returned tt s' /\
    st_signal s' = None /\ st_temp_files s' = st_temp_files s /\
    (st_uuids s <= st_uuids s')%nat /\
    (forall n, (st_uuids s <= n < st_uuids s')%nat ->
               st_fs s' !! audio_of w n = None /\ st_fs s' !! mono_of w n = None) /\
    (forall p, ~ scratch_name w p -> is_Some (st_fs s !! p) ->
               st_fs s' !! p = st_fs s !! p) /\
    exists tr, st_trace s' = (st_trace s ++ tr)%list /\
      Forall (folder_call w input_folder output_folder
                (selected w fs0 input_folder)) tr /\
      forall f, f ∈ selected w fs0 input_folder ->
        (is_Some (st_fs s' !! transcript_path output_folder f)
         \/ exists e, print_exn (failure_line f) e ∈ tr) /\
        (print (skip_line (transcript_path output_folder f)) ∈ tr
         \/ print (processing_line f) ∈ tr).
Proof.
  intros Hs Hnd Hfile.
  rewrite run_quiet_bind.
  edestruct (select_videos_quiet w input_folder (w_listdir w input_folder))
    as (s1 & -> & Hfs1 & Hs1 & Htf1 & Hu1 & Htr1).
  cbn in Hfs1, Hs1, Htf1, Hu1, Htr1.
  assert (Hsel : List.filter
            (fun f => Fs.isfile (st_fs s) (posixpath.join input_folder f)
                      && supported_extension (Str.lower (posixpath.splitext f).2))
            (w_listdir w input_folder) = selected w fs0 input_folder).
  { unfold selected. apply List.filter_ext. intros f. rewrite Hfile. reflexivity. }
  cbn [st_fs record_call]. rewrite Hsel. rewrite run_quiet_bind.
  destruct (process_videos_quiet w input_folder output_folder model tool
              (selected w fs0 input_folder) [] s1)
    as (tf & s2 & -> & Hs2 & Htf2 & Hnd2 & Hrel2 & Hu2 & Htok2 & _ & Hkeep2
        & tr2 & Htr2 & Hc2 & Hall2).
  { congruence. }
  { rewrite Hfs1. exact Hnd. }
  { intros p Hp. exfalso. eapply not_elem_of_nil, Hp. }
  exists s2. cbn. split; [reflexivity|].
  split; [assumption|]. split; [congruence|]. split; [lia|].
  split.
  { intros n Hn. destruct (Htok2 n) as [Ha Hm]; [lia|].
    split; [apply (Hrel2 _ Ha)|apply (Hrel2 _ Hm)]. }
  split.
  { intros p Hns Hex. rewrite Hkeep2; rewrite ?Hfs1; auto. }
  exists (map (fun f => os_path_isfile (posixpath.join input_folder f))
               (w_listdir w input_folder) ++ tr2)%list.
  split.
  { rewrite Htr2, Htr1. rewrite <- !app_assoc. reflexivity. }
  split.
  { apply Forall_app. split.
    - apply Forall_forall. intros c Hc. apply list_elem_of_In, in_map_iff in Hc.
      destruct Hc as (f & <- & _). exact I.
    - eapply Forall_impl; [exact Hc2|]. intros c (f & Hf & Hc).
      eapply item_call_folder; eassumption. }
  intros f Hf. destruct (Hall2 f Hf) as [Hd Hv]. split.
  - destruct Hd as [Hd|[e He]]; [left; exact Hd|].
    right. exists e. apply elem_of_app. right. exact He.
  - destruct Hv as [Hv|Hv]; [left|right]; apply elem_of_app; right; exact Hv.
Qed.

Lemma process_folder_quiet (input_folder output_folder model tool : string)
    (s : State) :
  st_signal s = None ->
  Fs.isdir (st_fs s) input_folder = true ->
  no_scratch_directory w (st_fs s) ->
  ~ scratch_name w output_folder ->
  exists s',
    run_quiet w (process_folder input_folder output_folder model tool) s
    = Returned tt s' /\
    st_signal s' = None /\ st_temp_files s' = st_temp_files s /\
    (forall n, (st_uuids s <= n < st_uuids s')%nat ->
               st_fs s' !! audio_of w n = None /\ st_fs s' !! mono_of w n = None) /\
    (forall p, ~ scratch_name w p -> is_Some (st_fs s !! p) ->
               st_fs s' !! p = st_fs s !! p) /\
    exists tr, st_trace s' = (st_trace s ++ tr)%list /\
      Forall (folder_call w input_folder output_folder
                (selected w (st_fs s) input_folder)) tr /\
      forall f, f ∈ selected w (st_fs s) input_folder ->
        (is_Some (st_fs s' !! transcript_path output_folder f)
         \/ exists e, print_exn (failure_line f) e ∈ tr) /\
        (print (skip_line (transcript_path output_folder f)) ∈ tr
         \/ print (processing_line f) ∈ tr).
Proof.
  intros Hs Hin Hnd Hout.
  unfold process_folder. rewrite run_quiet_bind. exec. rewrite run_quiet_bind. exec.
  destruct (Fs.exists_ (st_fs s) output_folder) eqn:Eout; exec.
  - rewrite Hin. exec.
    match goal with |- context [run_quiet w _ ?s1] =>
      destruct (process_folder_loop input_folder output_folder model tool (st_fs s) s1)
        as (s' & -> & Hs' & Htf' & Hu' & Htok & Hkeep & tr & Htr & Hc & Hall)
    end; try assumption; [reflexivity|].
    cbn in *. exists s'. split; [reflexivity|].
    split; [assumption|]. split; [assumption|].
    split; [intros n Hn; apply Htok; lia|]. split; [assumption|].
    eexists. split; [rewrite Htr, <- ?app_assoc; cbn [app]; reflexivity|].
    split; [|intros f Hf; destruct (Hall f Hf) as [Hd Hv]; split].
    + constructor; [intros H; vm_compute in H; discriminate H|].
      constructor; [exact I|]. constructor; [exact I|]. exact Hc.
    + destruct Hd as [Hd|[e He]]; [left; exact Hd|right; exists e; do 3 right; exact He].
    + destruct Hv as [Hv|Hv]; [left|right]; do 3 right; exact Hv.
  - rewrite Eout. exec. rewrite (isdir_insert_dir _ _ _ Hin). exec.
    match goal with |- context [run_quiet w _ ?s1] =>
      destruct (process_folder_loop input_folder output_folder model tool (st_fs s) s1)
        as (s' & -> & Hs' & Htf' & Hu' & Htok & Hkeep & tr & Htr & Hc & Hall)
    end; try assumption.
    { cbn. apply no_scratch_directory_insert_dir; assumption. }
    { cbn. intros p. apply isfile_insert_dir. exact Eout. }
    cbn in *. exists s'. split; [reflexivity|].
    split; [assumption|]. split; [assumption|].
    split; [intros n Hn; apply Htok; lia|].
    split.
    { intros p Hns Hex. rewrite Hkeep.
      - apply lookup_insert_ne. intros <-.
        apply exists_false_lookup in Eout. rewrite Eout in Hex.
        destruct Hex; discriminate.
      - exact Hns.
      - destruct (decide (output_folder = p)) as [->|Hne].
        + rewrite lookup_insert_eq. eauto.
        + rewrite lookup_insert_ne by exact Hne. exact Hex. }
    eexists. split; [rewrite Htr, <- ?app_assoc; cbn [app]; reflexivity|].
    split; [|intros f Hf; destruct (Hall f Hf) as [Hd Hv]; split].
    + constructor; [intros H; vm_compute in H; discriminate H|].
      constructor; [exact I|]. constructor; [exact I|].
      constructor; [exact I|]. exact Hc.
    + destruct Hd as [Hd|[e He]]; [left; exact Hd|right; exists e; do 4 right; exact He].
    + destruct Hv as [Hv|Hv]; [left|right]; do 4 right; exact Hv.
Qed.

End FolderRun.

Lemma selected_spec (w : World) (fs : FS) (input_folder f : string) :
  f ∈ selected w fs input_folder <->
  f ∈ w_listdir w input_folder /\
  Fs.isfile fs (posixpath.join input_folder f) = true /\
  Str.lower (posixpath.splitext f).2 ∈ SUPPORTED_VIDEO_EXTENSIONS.
Proof.
  unfold selected. rewrite !list_elem_of_In, List.filter_In, andb_true_iff.
  unfold supported_extension. rewrite bool_decide_eq_true. tauto.
Qed.


Lemma one_bad_video_no_scratch_directory :
  no_scratch_directory Scenario.one_bad_video Scenario.fs_folder.
Proof. intros p [n [->| ->]]; destruct n; vm_compute; reflexivity. Qed.

Lemma one_bad_video_output_not_scratch :
  ~ scratch_name Scenario.one_bad_video "out".
Proof. intros [n [H|H]]; destruct n; vm_compute in H; discriminate H. Qed.


(** The same run, evaluated: [a.mp4] is reported, [b.MKV] has its
    transcript, [notes.txt] is left alone, and no scratch file remains. *)
Lemma folder_with_one_bad_video :
  exists s',
    run Scenario.one_bad_video (process_folder "in" "out" "base" "pt-BR")
      (idle Scenario.fs_folder) = Returned tt s' /\
    st_fs s' = <[ "out/b.txt" := File "ola mundo." ]>
                 (<[ "/home/u/.audiowise" := Dir ]>
                    (<[ "out" := Dir ]> Scenario.fs_folder)) /\
    List.filter (fun c => match c with print_exn _ _ => true | _ => false end)
      (st_trace s')
    = [print_exn "Erro ao processar a.mp4: "
         (RuntimeError_exn "Erro ao extrair áudio: "
            (CalledProcessError 1
               ["ffmpeg"; "-i"; "in/a.mp4"; "-q:a"; "0"; "-map"; "a";
                "/home/u/.audiowise/audio_a1.mp3"]))].
Proof. eexists. split; [|split]; vm_compute; reflexivity. Qed.



(** The selection on the folder of the scenario: the two videos, whatever
    the case of the extension, and not the text file. *)
Lemma selected_in_scenario :
  selected Scenario.one_bad_video Scenario.fs_folder "in" = ["a.mp4"; "b.MKV"].
Proof. vm_compute. reflexivity. Qed.

(** ** Invariants of interruptible runs

    A state predicate that every call of a program preserves, and that the
    signal handler preserves, holds when the program ends, whenever the
    signal arrives. *)

Section Invariant.
Context (w : World) (Inv : State -> Prop).
Hypothesis Inv_signal : forall s sg, Inv s -> Inv (with_signal sg s).
Hypothesis Inv_handler : forall s, Inv s -> Inv (final (run_quiet w handle_exit s)).

Lemma keeps_ret {A : Type} (a : A) (Q : A -> Prop) : Q a -> keeps w Inv (Ret a) Q.
Proof. intros HQ s Hs. cbn. auto. Qed.

Lemma keeps_raise {A : Type} (e : Exn) (Q : A -> Prop) : keeps w Inv (Raise e) Q.
Proof. intros s Hs. exact Hs. Qed.

Lemma keeps_bind {A B : Type} (p : Prog A) (f : A -> Prog B)
    (Q1 : A -> Prop) (Q2 : B -> Prop) :
  keeps w Inv p Q1 -> (forall a, Q1 a -> keeps w Inv (f a) Q2) -> keeps w Inv (bind p f) Q2.
Proof.
  intros Hp Hf s Hs. rewrite run_bind. specialize (Hp s Hs).
  destruct (run w p s) as [a s'|e s'|n s']; [|exact Hp|exact Hp].
  destruct Hp as [Hs' Ha]. exact (Hf a Ha s' Hs').
Qed.

Lemma keeps_try {A : Type} (p : Prog A) (h : Exn -> Prog A) (Q : A -> Prop) :
  keeps w Inv p Q -> (forall e, keeps w Inv (h e) Q) -> keeps w Inv (try_except p h) Q.
Proof.
  intros Hp Hh s Hs. rewrite run_try. specialize (Hp s Hs).
  destruct (run w p s) as [a s'|e s'|n s']; [exact Hp| |exact Hp].
  exact (Hh e s' Hp).
Qed.

Lemma keeps_weaken {A : Type} (p : Prog A) (Q Q' : A -> Prop) :
  (forall a, Q a -> Q' a) -> keeps w Inv p Q -> keeps w Inv p Q'.
Proof.
  intros HQ Hp s Hs. specialize (Hp s Hs).
  destruct (run w p s) as [a s'|e s'|n s']; [|exact Hp|exact Hp].
  destruct Hp as [Hs' Ha]. auto.
Qed.

Lemma keeps_call (c : Call) (Q : Ans c -> Prop) :
  (forall s, Inv s ->
     Inv (perform w c s).2 /\
     match (perform w c s).1 with inr a => Q a | inl _ => True end) ->
  keeps w Inv (call c) Q.
Proof.
  intros Hc s Hs. unfold call. cbn [run].
  assert (Hstep : forall s0, Inv s0 ->
            match (let '(r, s') := perform w c s0 in
                   run w match r with inl e => Raise e | inr a => Ret a end s') with
            | Returned a s' => Inv s' /\ Q a
            | Raised _ s' => Inv s'
            | Exited _ s' => Inv s'
            end).
  { intros s0 Hs0. specialize (Hc s0 Hs0).
    destruct (perform w c s0) as [[e|a] s']; cbn in *; tauto. }
  destruct (st_signal s) as [[|n]|] eqn:Esig.
  - pose proof (Inv_handler _ (Inv_signal _ None Hs)) as Hh.
    destruct (run_quiet w handle_exit (with_signal None s)) as [[] s'|e s'|k s'];
      cbn in Hh.
    + apply Hstep. exact Hh.
    + exact Hh.
    + exact Hh.
  - apply Hstep. apply Inv_signal. exact Hs.
  - apply Hstep. exact Hs.
Qed.

Lemma keeps_any {A : Type} (p : Prog A) (Q : A -> Prop) :
  keeps w Inv p Q -> keeps w Inv p (fun _ => True).
Proof. apply keeps_weaken. auto. Qed.

Lemma keeps_seq {A B : Type} (p : Prog A) (q : Prog B) (Q1 : A -> Prop)
    (Q2 : B -> Prop) :
  keeps w Inv p Q1 -> keeps w Inv q Q2 -> keeps w Inv (p ;; q) Q2.
Proof. intros Hp Hq. apply (keeps_bind p _ Q1); auto. Qed.

Lemma keeps_final {A : Type} (p : Prog A) (Q : A -> Prop) (s : State) :
  keeps w Inv p Q -> Inv s -> Inv (final (run w p s)).
Proof.
  intros Hp Hs. specialize (Hp s Hs).
  destruct (run w p s) as [a s'|e s'|n s']; cbn; tauto.
Qed.

Lemma keeps_returned {A : Type} (p : Prog A) (Q : A -> Prop) (s s' : State) (a : A) :
  keeps w Inv p Q -> Inv s -> run w p s = Returned a s' -> Q a.
Proof. intros Hp Hs E. specialize (Hp s Hs). rewrite E in Hp. tauto. Qed.

Lemma keeps_when (b : bool) (p : Prog unit) :
  (b = true -> keeps w Inv p (fun _ => True)) -> keeps w Inv (when b p) (fun _ => True).
Proof.
  intros Hp. destruct b; cbn; [apply Hp; reflexivity|]. apply keeps_ret. exact Logic.I.
Qed.

End Invariant.

(** The handler preserves what its own calls preserve. *)
Section Handler.
Context (w : World) (Inv : State -> Prop).
Hypothesis Inv_calls : forall s c,
  Inv s -> handler_call (st_temp_files s) c -> Inv (perform w c s).2.

Lemma perform_temp_files_handler (s : State) (c : Call) (l : list string) :
  handler_call l c -> st_temp_files (perform w c s).2 = st_temp_files s.
Proof.
  intros Hc. apply perform_temp_files. intros l' ->.
  destruct Hc as [Hc|[Hc|Hc]]; [discriminate|discriminate|exact Hc].
Qed.

Lemma release_loop_keeps (l l' : list string) (s : State) :
  Inv s -> st_temp_files s = l -> (forall p, p ∈ l' -> p ∈ l) ->
  Inv (final (run_quiet w
       (for_each l' (fun temp_file =>
          present <- call (os_path_exists temp_file) ;;
          when present (call (os_remove temp_file)))) s)) /\
  st_temp_files (final (run_quiet w
       (for_each l' (fun temp_file =>
          present <- call (os_path_exists temp_file) ;;
          when present (call (os_remove temp_file)))) s)) = l.
Proof.
  revert s. induction l' as [|p l' IH]; intros s Hs Hl Hsub; [cbn; auto|].
  assert (Hp : p ∈ l) by (apply Hsub; left).
  assert (Hex : handler_call l (os_path_exists p)) by (right; right; exact Hp).
  assert (Hrm : handler_call l (os_remove p)) by (right; right; exact Hp).
  cbn [for_each]. rewrite !run_quiet_bind, run_quiet_call.
  pose proof (Inv_calls s (os_path_exists p) Hs) as H1. rewrite Hl in H1.
  specialize (H1 Hex).
  pose proof (perform_temp_files_handler s _ _ Hex) as T1.
  destruct (perform w (os_path_exists p) s) as [[e|[|]] s1] eqn:E1; cbn [fst snd final when] in *.
  - split; [exact H1|congruence].
  - rewrite (run_quiet_call w (os_remove p)).
    pose proof (Inv_calls s1 (os_remove p) H1) as H2.
    rewrite T1, Hl in H2. specialize (H2 Hrm).
    pose proof (perform_temp_files_handler s1 _ _ Hrm) as T2.
    destruct (perform w (os_remove p) s1) as [[e|[]] s2] eqn:E2; cbn [fst snd final when] in *.
    + split; [exact H2|congruence].
    + apply IH; [exact H2|congruence|]. intros q Hq. apply Hsub. right. exact Hq.
  - apply IH; [exact H1|congruence|]. intros q Hq. apply Hsub. right. exact Hq.
Qed.

Lemma handle_exit_keeps (s : State) : Inv s -> Inv (final (run_quiet w handle_exit s)).
Proof.
  intros Hs. unfold handle_exit.
  rewrite run_quiet_bind, run_quiet_call.
  pose proof (Inv_calls s _ Hs (or_introl eq_refl)) as H1.
  pose proof (perform_temp_files_handler s _ (st_temp_files s) (or_introl eq_refl)) as T1.
  destruct (perform w (print _) s) as [[e|[]] s1] eqn:E1; cbn [fst snd final when] in *; [exact H1|].
  rewrite run_quiet_bind, run_quiet_call.
  assert (Hread : handler_call (st_temp_files s1) temp_files_read)
    by (right; left; reflexivity).
  pose proof (Inv_calls s1 _ H1 Hread) as H2.
  pose proof (perform_temp_files_handler s1 _ _ Hread) as T2.
  assert (Hans : (perform w temp_files_read s1).1 = inr (st_temp_files s1))
    by reflexivity.
  destruct (perform w temp_files_read s1) as [[e|l] s2] eqn:E2; cbn [fst snd final when] in *;
    [exact H2|].
  injection Hans as ->.
  rewrite run_quiet_bind. unfold cleanup_temp_files. rewrite run_quiet_bind.
  destruct (release_loop_keeps (st_temp_files s1) (st_temp_files s1) s2 H2 T2)
    as [H3 T3]; [auto|].
  destruct (run_quiet w (for_each _ _) s2) as [[] s3|e s3|k s3]; cbn [fst snd final when] in *;
    try exact H3.
  rewrite run_quiet_call.
  assert (Hpr : handler_call (st_temp_files s3)
                  (print "[LOG] Arquivos temporários removidos."))
    by (right; right; reflexivity).
  pose proof (Inv_calls s3 _ H3 Hpr) as H4.
  destruct (perform w (print _) s3) as [[e|[]] s4]; cbn [fst snd final when] in *; exact H4.
Qed.

End Handler.

(** The parts of the script that only look at the world keep whatever the
    calls that are no stage calls keep. *)
Section Harmless.
Context (w : World) (Inv : State -> Prop).
Hypothesis line : forall c, stage_call c = false -> keeps w Inv (call c) (fun _ => True).

Lemma check_dependencies_keeps : keeps w Inv check_dependencies (fun _ => True).
Proof.
  unfold check_dependencies.
  eapply keeps_bind; [apply (line (subprocess_run _)); reflexivity|intros returncode _].
  apply (keeps_seq _ _ _ _ (fun _ => True)).
  { destruct (negb _); [apply keeps_raise|apply keeps_ret; exact I]. }
  apply (keeps_seq _ _ _ _ (fun _ => True)).
  { apply keeps_try; [|intro; apply keeps_raise].
    eapply keeps_bind; [apply (line (whisper_load_model _)); reflexivity|intros _ _].
    apply keeps_ret; exact I. }
  apply keeps_try; [|intro; apply keeps_raise].
  eapply keeps_bind; [apply (line (LanguageTool _)); reflexivity|intros _ _].
  apply keeps_ret; exact I.
Qed.

Lemma select_videos_keeps (input_folder : string) (entries : list string) :
  keeps w Inv (select_videos input_folder entries) (fun _ => True).
Proof.
  induction entries as [|f rest IH]; [apply keeps_ret; exact I|].
  cbn [select_videos].
  eapply keeps_bind; [apply (line (os_path_isfile _)); reflexivity|intros is_file _].
  eapply keeps_bind; [exact IH|intros sel _].
  apply keeps_ret; exact I.
Qed.

End Harmless.

(** ** Skipping a job whose destination exists *)

Section Skip.
Context (w : World) (s0 : State).
Hypothesis no_temp_files : st_temp_files s0 = [].

Lemma skipped_refl : skipped s0 s0.
Proof.
  repeat split. exists []. split; [symmetry; apply app_nil_r|constructor].
Qed.

Lemma skipped_signal (s : State) (sg : option nat) :
  skipped s0 s -> skipped s0 (with_signal sg s).
Proof. intros H. exact H. Qed.

Lemma skipped_record (c : Call) (s : State) :
  stage_call c = false -> skipped s0 s -> skipped s0 (record_call c s).
Proof.
  intros Hc (Hfs & Hu & Ht & tr & Htr & Hall). repeat split; try assumption.
  exists (tr ++ [c])%list. cbn. rewrite Htr, <- app_assoc. split; [reflexivity|].
  apply Forall_app. split; [exact Hall|]. constructor; [exact Hc|constructor].
Qed.

Lemma perform_stage_free (c : Call) (s : State) :
  stage_call c = false ->
  (perform w c s).2 = record_call c s /\
  match (perform w c s).1 with inr a => reads w (st_fs s) c a | inl _ => True end.
Proof.
  intros Hc. unfold perform, answer.
  destruct c; try discriminate Hc; cbn in *; repeat case_match;
    try discriminate; cbn in *; simplify_eq; cbn; auto.
Qed.

Lemma skipped_perform (c : Call) (s : State) :
  stage_call c = false -> skipped s0 s ->
  skipped s0 (perform w c s).2 /\
  match (perform w c s).1 with inr a => reads w (st_fs s0) c a | inl _ => True end.
Proof.
  intros Hc Hs. destruct (perform_stage_free c s Hc) as [E Ha].
  rewrite E. split; [apply skipped_record; assumption|].
  destruct Hs as (Hfs & _). rewrite <- Hfs. exact Ha.
Qed.

Lemma skipped_handler (s : State) :
  skipped s0 s -> skipped s0 (final (run_quiet w handle_exit s)).
Proof.
  apply handle_exit_keeps. clear s. intros s c Hs Hc.
  apply skipped_perform; [|exact Hs].
  destruct Hs as (_ & _ & Ht & _). rewrite Ht, no_temp_files in Hc.
  destruct Hc as [-> | [-> | Hc]]; [reflexivity|reflexivity|].
  destruct c; cbn in Hc; try contradiction; try reflexivity;
    apply elem_of_nil in Hc; contradiction.
Qed.

Lemma keeps_quiet_call (c : Call) :
  stage_call c = false -> keeps w (skipped s0) (call c) (reads w (st_fs s0) c).
Proof.
  intros Hc. apply keeps_call; [exact skipped_signal|exact skipped_handler|].
  intros s Hs. apply skipped_perform; assumption.
Qed.

Lemma keeps_quiet_line (c : Call) :
  stage_call c = false -> keeps w (skipped s0) (call c) (fun _ => True).
Proof. intros Hc. exact (keeps_any _ _ _ _ (keeps_quiet_call c Hc)). Qed.

Ltac quiet_call :=
  lazymatch goal with
  | |- keeps _ _ (call ?c) _ =>
      first [apply (keeps_quiet_call c) | apply (keeps_quiet_line c)]; reflexivity
  end.

Lemma main_skipped (video_path output_path model_size language : string) :
  Fs.isdir (st_fs s0) video_path = false ->
  Fs.exists_ (st_fs s0) (single_destination (st_fs s0) video_path output_path) = true ->
  keeps w (skipped s0) (main video_path output_path model_size language)
    (fun _ => True).
Proof.
  intros Hdir Hdone. unfold main.
  apply keeps_try;
    [|intro; quiet_call].
  eapply keeps_seq; [apply check_dependencies_keeps; exact keeps_quiet_line|].
  eapply keeps_bind; [quiet_call|intros model _].
  eapply keeps_bind; [quiet_call|intros tool _].
  eapply keeps_bind; [quiet_call|intros is_folder E].
  cbn [reads] in E. rewrite Hdir in E. subst is_folder.
  eapply keeps_bind; [quiet_call|intros present _].
  destruct present; cbn [negb];
    [|quiet_call].
  eapply keeps_bind; [quiet_call|intros into_folder E].
  cbn [reads] in E. subst into_folder.
  eapply keeps_bind; [quiet_call|intros done E].
  cbn [reads] in E. unfold single_destination in Hdone. rewrite Hdone in E. subst done.
  quiet_call.
Qed.

Lemma process_video_skipped (input_folder output_folder model tool : string)
    (temp_files : list string) (video_file : string) :
  Fs.exists_ (st_fs s0) (transcript_path output_folder video_file) = true ->
  keeps w (skipped s0)
    (process_video input_folder output_folder model tool temp_files video_file)
    (fun l => l = temp_files).
Proof.
  intros Hdone. unfold process_video.
  eapply keeps_bind; [quiet_call|intros done E].
  cbn [reads] in E. rewrite Hdone in E. subst done.
  eapply keeps_seq; [quiet_call|].
  apply keeps_ret. reflexivity.
Qed.

Lemma select_videos_skipped (input_folder : string) (entries : list string) :
  keeps w (skipped s0) (select_videos input_folder entries)
    (fun sel => sel = List.filter
       (fun f => Fs.isfile (st_fs s0) (posixpath.join input_folder f)
                 && supported_extension (Str.lower (posixpath.splitext f).2))
       entries).
Proof.
  induction entries as [|f rest IH]; [apply keeps_ret; reflexivity|].
  cbn [select_videos].
  eapply keeps_bind; [quiet_call|intros is_file E].
  cbn [reads] in E. subst is_file.
  eapply keeps_bind; [exact IH|intros sel ->].
  apply keeps_ret. cbn [List.filter]. destruct (_ && _); reflexivity.
Qed.

Lemma process_videos_skipped (input_folder output_folder model tool : string)
    (video_files temp_files : list string) :
  (forall f, f ∈ video_files ->
     Fs.exists_ (st_fs s0) (transcript_path output_folder f) = true) ->
  keeps w (skipped s0)
    (process_videos input_folder output_folder model tool temp_files video_files)
    (fun _ => True).
Proof.
  induction video_files as [|f rest IH]; intros Hdone; [apply keeps_ret; exact I|].
  cbn [process_videos].
  eapply keeps_bind; [apply process_video_skipped; apply Hdone; left|intros l ->].
  apply IH. intros g Hg. apply Hdone. right. exact Hg.
Qed.

Lemma process_folder_skipped (input_folder output_folder model tool : string) :
  Fs.exists_ (st_fs s0) output_folder = true ->
  (forall f, f ∈ selected w (st_fs s0) input_folder ->
     Fs.exists_ (st_fs s0) (transcript_path output_folder f) = true) ->
  keeps w (skipped s0) (process_folder input_folder output_folder model tool)
    (fun _ => True).
Proof.
  intros Hout Hdone. unfold process_folder.
  eapply keeps_seq; [quiet_call|].
  eapply keeps_bind; [quiet_call|intros present E].
  cbn [reads] in E. rewrite Hout in E. subst present. cbn [negb when].
  apply (keeps_seq _ _ _ _ (fun _ => True)); [apply keeps_ret; exact I|].
  eapply keeps_bind; [quiet_call|intros entries E].
  cbn [reads] in E. subst entries.
  eapply keeps_bind; [apply select_videos_skipped|intros video_files ->].
  eapply keeps_bind; [apply process_videos_skipped; exact Hdone|intros _ _].
  apply keeps_ret; exact I.
Qed.

Lemma main_folder_skipped (video_path output_path model_size language : string) :
  Fs.isdir (st_fs s0) video_path = true ->
  Fs.exists_ (st_fs s0) output_path = true ->
  (forall f, f ∈ selected w (st_fs s0) video_path ->
     Fs.exists_ (st_fs s0) (transcript_path output_path f) = true) ->
  keeps w (skipped s0) (main video_path output_path model_size language)
    (fun _ => True).
Proof.
  intros Hdir Hout Hdone. unfold main.
  apply keeps_try; [|intro; quiet_call].
  eapply keeps_seq; [apply check_dependencies_keeps; exact keeps_quiet_line|].
  eapply keeps_bind; [quiet_call|intros model _].
  eapply keeps_bind; [quiet_call|intros tool _].
  eapply keeps_bind; [quiet_call|intros is_folder E].
  cbn [reads] in E. rewrite Hdir in E. subst is_folder.
  apply process_folder_skipped; assumption.
Qed.

End Skip.

(** C2.  A job whose destination exists is skipped, whenever a signal
    arrives.  In single-item mode, when the input is not a folder and the
    destination (inside [output_path] when that is a directory) exists, the
    whole run of [main] draws no token, makes no stage call (no directory
    created, nothing fetched, no transcoder run, no transcription, no
    correction, no file opened, written or removed, nothing registered in
    [temp_files]) and ends with the filesystem it started with.  In folder
    mode the same holds of the iteration of [process_folder] for a file
    whose transcript exists, from any state of a folder run ([temp_files] of
    [main] is empty there), and the iteration hands the list of the driver
    back as it received it. *)
Theorem existing_destination_is_skipped (w : World) :
  (forall (fs : FS) (signal : option nat)
          (video_path output_path model_size language : string),
     Fs.isdir fs video_path = false ->
     Fs.exists_ fs (single_destination fs video_path output_path) = true ->
     skipped (start fs signal)
       (final (run_main w fs signal video_path output_path model_size language)))
  /\
  (forall (s : State) (input_folder output_folder model tool : string)
          (temp_files : list string) (video_file : string),
     st_temp_files s = [] ->
     Fs.exists_ (st_fs s) (transcript_path output_folder video_file) = true ->
     skipped s
       (final (run w (process_video input_folder output_folder model tool
                        temp_files video_file) s))
     /\ forall l s',
          run w (process_video input_folder output_folder model tool
                   temp_files video_file) s = Returned l s' ->
          l = temp_files).
Proof.
  split.
  - intros fs signal video_path output_path model_size language Hdir Hdone.
    unfold run_main.
    apply (keeps_final w _ _ (fun _ => True)); [|apply skipped_refl].
    apply main_skipped; [reflexivity|exact Hdir|exact Hdone].
  - intros s input_folder output_folder model tool temp_files video_file Ht Hdone.
    pose proof (process_video_skipped w s Ht input_folder output_folder model tool
                  temp_files video_file Hdone) as Hk.
    split.
    + apply (keeps_final w _ _ _ _ Hk). apply skipped_refl.
    + intros l s' E.
      exact (keeps_returned w _ _ _ _ _ _ Hk (skipped_refl s) E).
Qed.

Lemma existing_destination_is_skipped_witness :
  skipped (start Scenario.fs_talk_done (Some 5%nat))
    (final (run_main Scenario.healthy Scenario.fs_talk_done (Some 5%nat)
              "talk.mp4" "talk.txt" "base" "pt-BR"))
  /\ skipped (idle Scenario.fs_folder_done)
       (final (run Scenario.healthy
                 (process_video "in" "out" "base" "pt-BR" [] "a.mp4")
                 (idle Scenario.fs_folder_done))).
Proof.
  split.
  - exact (proj1 (existing_destination_is_skipped Scenario.healthy)
             Scenario.fs_talk_done (Some 5%nat) "talk.mp4" "talk.txt" "base" "pt-BR"
             eq_refl eq_refl).
  - exact (proj1 (proj2 (existing_destination_is_skipped Scenario.healthy)
                    (idle Scenario.fs_folder_done) "in" "out" "base" "pt-BR" []
                    "a.mp4" eq_refl eq_refl)).
Defined.



(** Two runs on the same single item, evaluated: the first writes the
    transcript, the second finds it, logs that the item is already
    processed and leaves every file as it was. *)
Lemma second_run_changes_nothing :
  exists s1 s2,
    run_main Scenario.healthy Scenario.fs_talk None
      "talk.mp4" "talk.txt" "base" "pt-BR" = Returned tt s1 /\
    st_fs s1 !! "talk.txt" = Some (File "ola mundo.") /\
    run_main Scenario.healthy (st_fs s1) None
      "talk.mp4" "talk.txt" "base" "pt-BR" = Returned tt s2 /\
    st_fs s2 = st_fs s1 /\
    st_uuids s2 = 0%nat /\
    List.last (st_trace s2) temp_files_read = print (skip_line "talk.txt").
Proof.
  eexists. eexists.
  split; [vm_compute; reflexivity|].
  split; [vm_compute; reflexivity|].
  split; [vm_compute; reflexivity|].
  split; [vm_compute; reflexivity|].
  split; vm_compute; reflexivity.
Qed.

(** ** Runs on a local input *)

Section Local.
Context (w : World) (fs0 : FS).

Lemma local_state_signal (s : State) (sg : option nat) :
  local_state w fs0 s -> local_state w fs0 (with_signal sg s).
Proof. intros H. exact H. Qed.

Lemma perform_trace (c : Call) (s : State) :
  st_trace (perform w c s).2 = (st_trace s ++ [c])%list.
Proof. unfold perform, answer. destruct c; cbn; repeat case_match; reflexivity. Qed.

Lemma perform_keeps_path (c : Call) (s : State) (q : string) :
  (forall p, c = os_remove p -> p <> q) ->
  is_Some (st_fs s !! q) -> is_Some (st_fs (perform w c s).2 !! q).
Proof.
  intros Hc Hq. unfold perform, answer.
  destruct c; cbn; repeat case_match; cbn; try exact Hq;
    try (apply lookup_insert_is_Some'; right; exact Hq).
  rewrite lookup_delete_ne; [exact Hq|]. apply Hc. reflexivity.
Qed.

Lemma perform_world_answer (c : Call) (s : State) :
  match (perform w c s).1 with inr a => world_answer w c a | inl _ => True end.
Proof.
  unfold perform, answer. destruct c; cbn; repeat case_match; cbn; eauto.
Qed.

Lemma local_perform (c : Call) (s : State) :
  local_call w c -> local_state w fs0 s ->
  local_state w fs0 (perform w c s).2 /\
  match (perform w c s).1 with inr a => world_answer w c a | inl _ => True end.
Proof.
  intros Hc (Htr & Htf & Hfs). split; [|apply perform_world_answer].
  split; [|split].
  - rewrite perform_trace. apply Forall_app. split; [exact Htr|].
    constructor; [exact Hc|constructor].
  - intros p Hp.
    assert (Hcases : (exists l, c = temp_files_extend l)
                     \/ (forall l, c <> temp_files_extend l)).
    { destruct c; try (right; intros l; discriminate). left. eauto. }
    destruct Hcases as [[l ->]|Hne].
    + cbn in Hp. apply elem_of_app in Hp. destruct Hp as [Hp|Hp]; [auto|].
      apply Hc. exact Hp.
    + rewrite perform_temp_files in Hp; auto.
  - intros q Hq Hsome. apply perform_keeps_path; [|auto].
    intros p -> ->. apply Hq. exact Hc.
Qed.

Lemma local_handler (s : State) :
  local_state w fs0 s -> local_state w fs0 (final (run_quiet w handle_exit s)).
Proof.
  apply handle_exit_keeps. clear s. intros s c Hs Hc.
  apply local_perform; [|exact Hs].
  destruct Hs as (_ & Htf & _).
  destruct Hc as [-> | [-> | Hc]]; [exact I|exact I|].
  destruct c; cbn in Hc |- *; try contradiction; auto.
Qed.

Lemma keeps_local_call (c : Call) :
  local_call w c -> keeps w (local_state w fs0) (call c) (world_answer w c).
Proof.
  intros Hc. apply keeps_call; [exact local_state_signal|exact local_handler|].
  intros s Hs. apply local_perform; assumption.
Qed.

Lemma keeps_local_line (c : Call) :
  local_call w c -> keeps w (local_state w fs0) (call c) (fun _ => True).
Proof. intros Hc. exact (keeps_any _ _ _ _ (keeps_local_call c Hc)). Qed.

Lemma stage_free_local (c : Call) : stage_call c = false -> local_call w c.
Proof. destruct c; cbn; intros H; try discriminate H; exact I. Qed.

Lemma keeps_local_harmless (c : Call) :
  stage_call c = false -> keeps w (local_state w fs0) (call c) (fun _ => True).
Proof. intros Hc. apply keeps_local_line, stage_free_local, Hc. Qed.

Ltac local_step :=
  lazymatch goal with
  | |- keeps _ _ (call ?c) _ =>
      first [apply (keeps_local_call c) | apply (keeps_local_line c)];
      cbn [local_call]; auto using audio_is_scratch, mono_is_scratch
  end.

Lemma get_temp_dir_local :
  keeps w (local_state w fs0) get_temp_dir (fun d => d = temp_dir_of w).
Proof.
  unfold get_temp_dir.
  eapply keeps_bind; [local_step|intros home_dir E].
  cbn [world_answer] in E. subst home_dir.
  eapply keeps_bind; [local_step|intros present _].
  apply (keeps_seq _ _ _ _ (fun _ => True)).
  { destruct present; cbn [negb when]; [apply keeps_ret; exact I|local_step]. }
  apply keeps_ret. reflexivity.
Qed.

Lemma subprocess_run_check_local (argv : list string) :
  keeps w (local_state w fs0) (subprocess_run_check argv) (fun _ => True).
Proof.
  unfold subprocess_run_check.
  eapply keeps_bind; [local_step|intros returncode _].
  destruct (returncode =? 0); [apply keeps_ret; exact I|apply keeps_raise].
Qed.

Lemma extract_audio_local (video_path output_audio_path : string) :
  keeps w (local_state w fs0) (extract_audio video_path output_audio_path)
    (fun _ => True).
Proof.
  unfold extract_audio.
  eapply keeps_seq; [local_step|].
  apply keeps_try.
  - eapply keeps_seq; [apply subprocess_run_check_local|local_step].
  - intros e. destruct e; apply keeps_raise.
Qed.

Lemma transcribe_audio_local (audio_path output_txt_path model tool : string) :
  keeps w (local_state w fs0)
    (transcribe_audio audio_path output_txt_path model tool) (fun _ => True).
Proof.
  unfold transcribe_audio.
  eapply keeps_seq; [local_step|].
  eapply keeps_bind; [local_step|intros result_text _].
  eapply keeps_seq; [local_step|].
  eapply keeps_bind; [local_step|intros corrected_text _].
  eapply keeps_seq; [local_step|].
  eapply keeps_seq; [local_step|].
  local_step.
Qed.

Lemma release_loop_local (l : list string) :
  (forall p, p ∈ l -> scratch_name w p) ->
  keeps w (local_state w fs0)
    (for_each l (fun temp_file =>
       present <- call (os_path_exists temp_file) ;;
       when present (call (os_remove temp_file))))
    (fun _ => True).
Proof.
  induction l as [|p l IH]; intros Hl; [apply keeps_ret; exact I|].
  cbn [for_each].
  apply (keeps_seq _ _ _ _ (fun _ => True)).
  - eapply keeps_bind; [local_step|intros present _].
    destruct present; cbn [when]; [|apply keeps_ret; exact I].
    local_step. apply Hl. left.
  - apply IH. intros q Hq. apply Hl. right. exact Hq.
Qed.

Lemma cleanup_temp_files_local (l : list string) :
  (forall p, p ∈ l -> scratch_name w p) ->
  keeps w (local_state w fs0) (cleanup_temp_files l) (fun _ => True).
Proof.
  intros Hl. unfold cleanup_temp_files.
  eapply keeps_seq; [apply release_loop_local; exact Hl|local_step].
Qed.

Lemma process_video_steps_local (video_file video_path output_txt_path model tool : string)
    (n : nat) :
  keeps w (local_state w fs0)
    (process_video_steps video_file video_path (audio_of w n) (mono_of w n)
       output_txt_path model tool)
    (fun _ => True).
Proof.
  unfold process_video_steps.
  eapply keeps_seq; [local_step|].
  eapply keeps_seq; [apply extract_audio_local|].
  eapply keeps_seq; [apply subprocess_run_check_local|].
  eapply keeps_seq; [apply transcribe_audio_local|].
  eapply keeps_seq; [local_step|].
  eapply keeps_seq; [local_step|].
  local_step.
Qed.

Lemma process_video_local (input_folder output_folder model tool : string)
    (temp_files : list string) (video_file : string) :
  (forall p, p ∈ temp_files -> scratch_name w p) ->
  keeps w (local_state w fs0)
    (process_video input_folder output_folder model tool temp_files video_file)
    (fun l => forall p, p ∈ l -> scratch_name w p).
Proof.
  intros Hl. unfold process_video.
  eapply keeps_bind; [local_step|intros done _].
  destruct done.
  { eapply keeps_seq; [local_step|]. apply keeps_ret. exact Hl. }
  eapply keeps_bind; [local_step|intros unique_id [n ->]].
  eapply keeps_bind; [apply get_temp_dir_local|intros temp_dir ->].
  change (audio_scratch (temp_dir_of w) (w_uuid w n)) with (audio_of w n).
  change (mono_scratch (temp_dir_of w) (w_uuid w n)) with (mono_of w n).
  assert (Hl' : forall p, p ∈ (temp_files ++ [audio_of w n; mono_of w n])%list ->
                          scratch_name w p).
  { intros p Hp. apply elem_of_app in Hp. destruct Hp as [Hp|Hp]; [auto|].
    apply elem_of_cons in Hp. destruct Hp as [-> |Hp]; [apply audio_is_scratch|].
    apply elem_of_cons in Hp. destruct Hp as [-> |Hp]; [apply mono_is_scratch|].
    apply elem_of_nil in Hp. contradiction. }
  apply (keeps_seq _ _ _ _ (fun _ => True)); [|apply keeps_ret; exact Hl'].
  apply keeps_try; [apply process_video_steps_local|].
  intros e. unfold process_video_failed.
  eapply keeps_seq; [local_step|]. apply cleanup_temp_files_local. exact Hl'.
Qed.

Lemma process_videos_local (input_folder output_folder model tool : string)
    (video_files : list string) (temp_files : list string) :
  (forall p, p ∈ temp_files -> scratch_name w p) ->
  keeps w (local_state w fs0)
    (process_videos input_folder output_folder model tool temp_files video_files)
    (fun _ => True).
Proof.
  revert temp_files.
  induction video_files as [|f rest IH]; intros temp_files Hl;
    [apply keeps_ret; exact I|].
  cbn [process_videos].
  eapply keeps_bind; [apply process_video_local; exact Hl|intros l Hl'].
  apply IH. exact Hl'.
Qed.

Lemma process_folder_local (input_folder output_folder model tool : string) :
  keeps w (local_state w fs0)
    (process_folder input_folder output_folder model tool) (fun _ => True).
Proof.
  unfold process_folder.
  eapply keeps_seq; [local_step|].
  eapply keeps_bind; [local_step|intros present _].
  apply (keeps_seq _ _ _ _ (fun _ => True)).
  { destruct present; cbn [negb when]; [apply keeps_ret; exact I|local_step]. }
  eapply keeps_bind; [local_step|intros entries _].
  eapply keeps_bind;
    [apply select_videos_keeps; exact keeps_local_harmless|intros video_files _].
  eapply keeps_bind;
    [apply process_videos_local; intros p Hp; apply elem_of_nil in Hp; contradiction
    |intros _ _].
  apply keeps_ret; exact I.
Qed.

Lemma process_single_steps_local (video_path output_path model tool : string)
    (n : nat) :
  Str.startswith video_path "http" = false ->
  keeps w (local_state w fs0)
    (process_single_steps video_path video_path (audio_of w n) (mono_of w n)
       output_path model tool)
    (fun _ => True).
Proof.
  intros Hlocal. unfold process_single_steps. rewrite Hlocal. cbn [when].
  eapply keeps_seq; [local_step|].
  apply (keeps_seq _ _ _ _ (fun _ => True)); [apply keeps_ret; exact I|].
  eapply keeps_seq; [apply extract_audio_local|].
  eapply keeps_seq; [apply subprocess_run_check_local|].
  eapply keeps_seq; [apply transcribe_audio_local|].
  eapply keeps_seq; [local_step|].
  eapply keeps_seq; [local_step|].
  apply (keeps_seq _ _ _ _ (fun _ => True)); [apply keeps_ret; exact I|].
  eapply keeps_seq; [local_step|].
  local_step.
Qed.

Lemma process_single_local (video_path output_path model tool : string) :
  Str.startswith video_path "http" = false ->
  keeps w (local_state w fs0) (process_single video_path output_path model tool)
    (fun _ => True).
Proof.
  intros Hlocal. unfold process_single. rewrite Hlocal.
  eapply keeps_bind; [local_step|intros unique_id [n ->]].
  eapply keeps_bind; [apply get_temp_dir_local|intros temp_dir ->].
  change (audio_scratch (temp_dir_of w) (w_uuid w n)) with (audio_of w n).
  change (mono_scratch (temp_dir_of w) (w_uuid w n)) with (mono_of w n).
  eapply keeps_seq.
  { local_step. intros p Hp.
    apply elem_of_cons in Hp. destruct Hp as [-> |Hp]; [apply audio_is_scratch|].
    apply elem_of_cons in Hp. destruct Hp as [-> |Hp]; [apply mono_is_scratch|].
    apply elem_of_nil in Hp. contradiction. }
  apply keeps_try; [apply process_single_steps_local; exact Hlocal|].
  intros e. local_step.
Qed.

Lemma main_local (video_path output_path model_size language : string) :
  Str.startswith video_path "http" = false ->
  keeps w (local_state w fs0) (main video_path output_path model_size language)
    (fun _ => True).
Proof.
  intros Hlocal. unfold main.
  apply keeps_try; [|intros e; local_step].
  eapply keeps_seq; [apply check_dependencies_keeps; exact keeps_local_harmless|].
  eapply keeps_bind; [local_step|intros model _].
  eapply keeps_bind; [local_step|intros tool _].
  eapply keeps_bind; [local_step|intros is_folder _].
  destruct is_folder; [apply process_folder_local|].
  eapply keeps_bind; [local_step|intros present _].
  destruct present; cbn [negb]; [|local_step].
  eapply keeps_bind; [local_step|intros into_folder _].
  eapply keeps_bind; [local_step|intros done _].
  destruct done; [local_step|].
  apply process_single_local. exact Hlocal.
Qed.

Lemma local_state_start (signal : option nat) : local_state w fs0 (start fs0 signal).
Proof.
  split; [constructor|]. split; [|auto].
  intros p Hp. apply elem_of_nil in Hp. contradiction.
Qed.

End Local.

Lemma video_not_scratch (w : World) (n : nat) : ~ scratch_name w (video_of w n).
Proof.
  intros H. apply last_char_scratch in H. unfold video_of in H.
  rewrite last_char_video in H. discriminate.
Qed.


Lemma talk_is_not_scratch : ~ scratch_name Scenario.downmix_fails "talk.mp4".
Proof. intros [n [H|H]]; destruct n; vm_compute in H; discriminate H. Qed.


(** ** The shape of the script

    Whatever holds of every call outside [temp_files.extend], and is kept by
    sequencing and by [try]/[except], holds of every function of the script
    but the single-item branch of [main], which registers its scratch
    names. *)

Section Structure.
Context (K : forall A : Type, Prog A -> Prop).
Hypothesis K_ret : forall (A : Type) (a : A), K A (Ret a).
Hypothesis K_raise : forall (A : Type) (e : Exn), K A (Raise e).
Hypothesis K_bind : forall (A B : Type) (p : Prog A) (f : A -> Prog B),
  K A p -> (forall a, K B (f a)) -> K B (bind p f).
Hypothesis K_try : forall (A : Type) (p : Prog A) (h : Exn -> Prog A),
  K A p -> (forall e, K A (h e)) -> K A (try_except p h).
Hypothesis K_call : forall c, (forall l, c <> temp_files_extend l) -> K _ (call c).

Ltac structure :=
  repeat first
    [ apply K_ret
    | apply K_raise
    | lazymatch goal with
      | |- K _ (call ?c) => apply (K_call c); intros ?; discriminate
      end
    | lazymatch goal with
      | |- K _ (try_except _ _) => apply K_try; [|intros ?]
      end
    | lazymatch goal with
      | |- K _ (bind _ _) => apply K_bind; [|intros ?]
      end
    | lazymatch goal with
      | |- K _ (when ?b _) => destruct b; cbn [when negb]
      end
    | lazymatch goal with
      | |- K _ (if ?b then _ else _) => destruct b
      end
    | lazymatch goal with
      | |- K _ (match ?x with _ => _ end) => destruct x
      end ].

Lemma for_each_structure {X : Type} (l : list X) (body : X -> Prog unit) :
  (forall x, K _ (body x)) -> K _ (for_each l body).
Proof.
  intros Hbody. induction l as [|x l IH]; cbn [for_each]; [apply K_ret|].
  apply K_bind; [apply Hbody|intros _; exact IH].
Qed.

Lemma get_temp_dir_structure : K _ get_temp_dir.
Proof. unfold get_temp_dir. structure. Qed.

Lemma cleanup_temp_files_structure (l : list string) : K _ (cleanup_temp_files l).
Proof.
  unfold cleanup_temp_files. apply K_bind; [|intros _; structure].
  apply for_each_structure. intros p. structure.
Qed.

Lemma check_dependencies_structure : K _ check_dependencies.
Proof. unfold check_dependencies. structure. Qed.

Lemma subprocess_run_check_structure (argv : list string) :
  K _ (subprocess_run_check argv).
Proof. unfold subprocess_run_check. structure. Qed.

Lemma download_video_structure (url download_path : string) :
  K _ (download_video url download_path).
Proof.
  unfold download_video. apply K_bind; [structure|intros _].
  apply K_bind; [structure|intros response].
  destruct (status_code response =? 200); [|apply K_raise].
  apply K_bind; [structure|intros _].
  apply K_bind; [|intros _; structure].
  destruct (iter_content response 1024) as [chunks broken].
  apply K_bind; [|intros _; destruct broken; structure].
  apply for_each_structure. intros chunk. structure.
Qed.

Lemma extract_audio_structure (video_path output_audio_path : string) :
  K _ (extract_audio video_path output_audio_path).
Proof.
  unfold extract_audio. apply K_bind; [structure|intros _].
  apply K_try; [|intros e; destruct e; apply K_raise].
  apply K_bind; [apply subprocess_run_check_structure|intros _; structure].
Qed.

Lemma convert_to_mono_structure (input_audio output_audio : string) :
  K _ (convert_to_mono input_audio output_audio).
Proof. apply subprocess_run_check_structure. Qed.

Lemma transcribe_audio_structure (audio_path output_txt_path model tool : string) :
  K _ (transcribe_audio audio_path output_txt_path model tool).
Proof. unfold transcribe_audio. structure. Qed.

Lemma process_video_structure (input_folder output_folder model tool : string)
    (temp_files : list string) (video_file : string) :
  K _ (process_video input_folder output_folder model tool temp_files video_file).
Proof.
  unfold process_video. apply K_bind; [structure|intros done].
  destruct done; [structure|].
  apply K_bind; [structure|intros unique_id].
  apply K_bind; [apply get_temp_dir_structure|intros temp_dir].
  apply K_bind; [|intros _; apply K_ret].
  apply K_try.
  - unfold process_video_steps.
    apply K_bind; [structure|intros _].
    apply K_bind; [apply extract_audio_structure|intros _].
    apply K_bind; [apply convert_to_mono_structure|intros _].
    apply K_bind; [apply transcribe_audio_structure|intros _].
    structure.
  - intros e. unfold process_video_failed.
    apply K_bind; [structure|intros _]. apply cleanup_temp_files_structure.
Qed.

Lemma process_videos_structure (input_folder output_folder model tool : string)
    (video_files temp_files : list string) :
  K _ (process_videos input_folder output_folder model tool temp_files video_files).
Proof.
  revert temp_files.
  induction video_files as [|f rest IH]; intros temp_files; cbn [process_videos];
    [apply K_ret|].
  apply K_bind; [apply process_video_structure|intros l; apply IH].
Qed.

Lemma select_videos_structure (input_folder : string) (entries : list string) :
  K _ (select_videos input_folder entries).
Proof.
  induction entries as [|f rest IH]; cbn [select_videos]; [apply K_ret|].
  apply K_bind; [structure|intros is_file].
  apply K_bind; [exact IH|intros sel; apply K_ret].
Qed.

Lemma process_folder_structure (input_folder output_folder model tool : string) :
  K _ (process_folder input_folder output_folder model tool).
Proof.
  unfold process_folder.
  apply K_bind; [structure|intros _].
  apply K_bind; [structure|intros present].
  apply K_bind; [structure|intros _].
  apply K_bind; [structure|intros entries].
  apply K_bind; [apply select_videos_structure|intros video_files].
  apply K_bind; [apply process_videos_structure|intros _; apply K_ret].
Qed.

Hypothesis K_extend : forall l, K _ (call (temp_files_extend l)).

Lemma process_single_structure (video_path output_path model tool : string) :
  K _ (process_single video_path output_path model tool).
Proof.
  unfold process_single.
  apply K_bind; [structure|intros unique_id].
  apply K_bind; [apply get_temp_dir_structure|intros temp_dir].
  apply K_bind; [apply K_extend|intros _].
  apply K_try; [|intros e; structure].
  unfold process_single_steps.
  apply K_bind; [structure|intros _].
  apply K_bind.
  { destruct (Str.startswith video_path "http"); cbn [when];
      [apply download_video_structure|apply K_ret]. }
  intros _.
  apply K_bind; [apply extract_audio_structure|intros _].
  apply K_bind; [apply convert_to_mono_structure|intros _].
  apply K_bind; [apply transcribe_audio_structure|intros _].
  structure.
Qed.

Lemma main_body_structure (video_path output_path model_size language : string) :
  K _ (check_dependencies ;;
       model <- call (whisper_load_model model_size) ;;
       tool <- call (LanguageTool language) ;;
       is_folder <- call (os_path_isdir video_path) ;;
       if is_folder then process_folder video_path output_path model tool
       else
         present <- call (os_path_exists video_path) ;;
         if negb present then
           call (print ("Erro: O arquivo de entrada '" +:+ video_path +:+ "' não existe."))
         else
           into_folder <- call (os_path_isdir output_path) ;;
           let output_path :=
             if into_folder
             then transcript_path output_path (posixpath.basename video_path)
             else output_path in
           done <- call (os_path_exists output_path) ;;
           if done then
             call (print ("[LOG] Arquivo já processado, ignorando: " +:+ output_path))
           else process_single video_path output_path model tool).
Proof.
  apply K_bind; [apply check_dependencies_structure|intros _].
  apply K_bind; [structure|intros model].
  apply K_bind; [structure|intros tool].
  apply K_bind; [structure|intros is_folder].
  destruct is_folder; [apply process_folder_structure|].
  apply K_bind; [structure|intros present].
  destruct present; cbn [negb]; [|structure].
  apply K_bind; [structure|intros into_folder].
  apply K_bind; [structure|intros done].
  destruct done; [structure|apply process_single_structure].
Qed.

Lemma main_structure (video_path output_path model_size language : string) :
  K _ (main video_path output_path model_size language).
Proof.
  unfold main. apply K_try; [apply main_body_structure|intros e; structure].
Qed.

End Structure.

(** ** How a run ends *)

Section Outcomes.
Context (w : World).

Lemma never_exits_bind {A B : Type} (p : Prog A) (f : A -> Prog B) :
  never_exits w p -> (forall a, never_exits w (f a)) -> never_exits w (bind p f).
Proof.
  intros Hp Hf s. rewrite run_quiet_bind. specialize (Hp s).
  destruct (run_quiet w p s) as [a s'|e s'|n s']; [apply Hf|exact I|exact Hp].
Qed.

Lemma never_exits_try {A : Type} (p : Prog A) (h : Exn -> Prog A) :
  never_exits w p -> (forall e, never_exits w (h e)) -> never_exits w (try_except p h).
Proof.
  intros Hp Hh s. rewrite run_quiet_try. specialize (Hp s).
  destruct (run_quiet w p s) as [a s'|e s'|n s']; [exact I|apply Hh|exact Hp].
Qed.

Lemma never_exits_call (c : Call) : never_exits w (call c).
Proof. intros s. rewrite run_quiet_call. destruct (perform w c s) as [[e|a] s']; exact I. Qed.

Lemma never_exits_cleanup (l : list string) : never_exits w (cleanup_temp_files l).
Proof.
  apply (cleanup_temp_files_structure (fun A p => never_exits w p)).
  - intros A a s. exact I.
  - intros A B p f. apply never_exits_bind.
  - intros c _. apply never_exits_call.
Qed.

Lemma never_exits_main (video_path output_path model_size language : string) :
  never_exits w (main video_path output_path model_size language).
Proof.
  apply (main_structure (fun A p => never_exits w p)).
  - intros A a s. exact I.
  - intros A e s. exact I.
  - intros A B p f. apply never_exits_bind.
  - intros A p h. apply never_exits_try.
  - intros c _. apply never_exits_call.
  - intros l. apply never_exits_call.
Qed.

Lemma print_handler_returns (p : Prog unit) (m : string) (s : State) :
  never_exits w (try_except p (fun e => call (print_exn m e))) ->
  exists s', run_quiet w (try_except p (fun e => call (print_exn m e))) s
             = Returned tt s'.
Proof.
  intros H. specialize (H s). rewrite run_quiet_try in *.
  destruct (run_quiet w p s) as [[] s'|e s'|n s'].
  - eexists. reflexivity.
  - rewrite (run_quiet_call w (print_exn m e)). unfold perform, answer. cbn.
    eexists. reflexivity.
  - contradiction.
Qed.

Lemma handle_exit_status (s s' : State) (n : Z) :
  run_quiet w handle_exit s = Exited n s' -> n = 1.
Proof.
  unfold handle_exit. rewrite run_quiet_bind, run_quiet_call.
  destruct (perform w (print _) s) as [[e|[]] s1]; cbn [fst snd]; [discriminate|].
  rewrite run_quiet_bind, (run_quiet_call w temp_files_read).
  destruct (perform w temp_files_read s1) as [[e|l] s2]; [discriminate|].
  rewrite run_quiet_bind. pose proof (never_exits_cleanup l s2) as Hc.
  destruct (run_quiet w (cleanup_temp_files l) s2) as [[] s3|e s3|k s3];
    [|discriminate|contradiction].
  cbn. intros E. injection E as <- _. reflexivity.
Qed.

Lemma exits_with_one_bind {A B : Type} (p : Prog A) (f : A -> Prog B) :
  exits_with_one w p -> (forall a, exits_with_one w (f a)) ->
  exits_with_one w (bind p f).
Proof.
  intros Hp Hf s. rewrite run_bind. specialize (Hp s).
  destruct (run w p s) as [a s'|e s'|n s']; [apply Hf|exact I|exact Hp].
Qed.

Lemma exits_with_one_try {A : Type} (p : Prog A) (h : Exn -> Prog A) :
  exits_with_one w p -> (forall e, exits_with_one w (h e)) ->
  exits_with_one w (try_except p h).
Proof.
  intros Hp Hh s. rewrite run_try. specialize (Hp s).
  destruct (run w p s) as [a s'|e s'|n s']; [exact I|apply Hh|exact Hp].
Qed.

Lemma exits_with_one_call (c : Call) : exits_with_one w (call c).
Proof.
  intros s. unfold call. cbn [run].
  destruct (st_signal s) as [[|n]|].
  - destruct (run_quiet w handle_exit (with_signal None s)) as [[] s'|e s'|k s'] eqn:E.
    + destruct (perform w c s') as [[e|a] s'']; exact I.
    + exact I.
    + exact (handle_exit_status _ _ _ E).
  - destruct (perform w c _) as [[e|a] s'']; exact I.
  - destruct (perform w c s) as [[e|a] s'']; exact I.
Qed.

Lemma exits_with_one_main (video_path output_path model_size language : string) :
  exits_with_one w (main video_path output_path model_size language).
Proof.
  apply (main_structure (fun A p => exits_with_one w p)).
  - intros A a s. exact I.
  - intros A e s. exact I.
  - intros A B p f. apply exits_with_one_bind.
  - intros A p h. apply exits_with_one_try.
  - intros c _. apply exits_with_one_call.
  - intros l. apply exits_with_one_call.
Qed.

Lemma registry_kept_handler (l : list string) (s : State) :
  st_temp_files s = l -> st_temp_files (final (run_quiet w handle_exit s)) = l.
Proof.
  apply (handle_exit_keeps w (fun s => st_temp_files s = l)).
  intros s1 c Hs1 Hc. rewrite (perform_temp_files_handler w s1 c _ Hc). exact Hs1.
Qed.

Lemma registry_kept_call (l : list string) (c : Call) :
  (forall l', c <> temp_files_extend l') ->
  keeps w (fun s => st_temp_files s = l) (call c) (fun _ => True).
Proof.
  intros Hc. apply keeps_call.
  - intros s sg Hs. exact Hs.
  - intros s. apply registry_kept_handler.
  - intros s Hs. split.
    + rewrite perform_temp_files by exact Hc. exact Hs.
    + destruct (perform w c s).1; exact I.
Qed.

Lemma registry_kept_process_folder (l : list string)
    (input_folder output_folder model tool : string) :
  keeps w (fun s => st_temp_files s = l)
    (process_folder input_folder output_folder model tool) (fun _ => True).
Proof.
  apply (process_folder_structure
           (fun A p => keeps w (fun s => st_temp_files s = l) p (fun _ => True))).
  - intros A a. apply keeps_ret. exact I.
  - intros A e. apply keeps_raise.
  - intros A B p f Hp Hf. apply (keeps_bind w _ p f (fun _ => True)); auto.
  - intros A p h. apply keeps_try.
  - intros c. apply registry_kept_call.
Qed.

End Outcomes.


(** [process_folder] never touches the list the signal handler reads:
    whenever a signal arrives, [temp_files] of [main] is after the folder
    driver what it was before it (empty, when [main] calls it), so the
    handler has no scratch path of a folder run to release. *)
Theorem process_folder_registers_nothing (w : World) (s : State)
    (input_folder output_folder model tool : string) :
  st_temp_files (final (run w (process_folder input_folder output_folder model tool) s))
  = st_temp_files s.
Proof.
  apply (keeps_final w (fun s' => st_temp_files s' = st_temp_files s) _ (fun _ => True)).
  - apply registry_kept_process_folder.
  - reflexivity.
Qed.

(** ** The helpers, one by one *)

Section Helpers.
Context (w : World).

Lemma get_temp_dir_quiet (s : State) :
  exists s',
    run_quiet w get_temp_dir s = Returned (temp_dir_of w) s' /\
    st_fs s' = (if Fs.exists_ (st_fs s) (temp_dir_of w) then st_fs s
                else <[temp_dir_of w := Dir]> (st_fs s)) /\
    st_uuids s' = st_uuids s /\ st_temp_files s' = st_temp_files s /\
    st_trace s' = (st_trace s ++
      [os_path_expanduser "~"; os_path_exists (temp_dir_of w)] ++
      (if Fs.exists_ (st_fs s) (temp_dir_of w) then []
       else [os_makedirs (temp_dir_of w)]))%list.
Proof.
  unfold get_temp_dir. exec.
  change (posixpath.join (w_home w) ".audiowise") with (temp_dir_of w).
  destruct (Fs.exists_ (st_fs s) (temp_dir_of w)) eqn:E; exec.
  - eexists. split; [reflexivity|]. cbn. rewrite <- app_assoc. auto.
  - change (posixpath.join (w_home w) ".audiowise") with (temp_dir_of w).
    rewrite E. exec. eexists. split; [reflexivity|]. cbn.
    rewrite <- !app_assoc. auto.
Qed.

End Helpers.



(** The two transcoder stages.  Both run one [ffmpeg] command and keep
    whatever it wrote at its output path, whether it succeeded or not.  A
    non-zero exit status makes [extract_audio] raise a [RuntimeError] that
    wraps the [CalledProcessError], with its closing log line not printed,
    while [convert_to_mono] lets the [CalledProcessError] itself through
    and logs nothing. *)
Theorem transcoder_stages_report_failure (w : World) (source target : string)
    (s : State) :
  let extraction := ["ffmpeg"; "-i"; source; "-q:a"; "0"; "-map"; "a"; target] in
  let downmix := ["ffmpeg"; "-i"; source; "-ac"; "1"; target] in
  let written (argv : list string) :=
    match (w_run w argv (st_fs s)).2 with
    | Some bytes => <[target := File bytes]> (st_fs s)
    | None => st_fs s
    end in
  (exists s',
     run_quiet w (extract_audio source target) s =
       (if (w_run w extraction (st_fs s)).1 =? 0 then Returned tt s'
        else Raised (RuntimeError_exn "Erro ao extrair áudio: "
                       (CalledProcessError (w_run w extraction (st_fs s)).1 extraction))
               s') /\
     st_fs s' = written extraction /\
     st_trace s' = (st_trace s ++
       [print "[LOG] Iniciando extração do áudio..."; subprocess_run extraction] ++
       (if (w_run w extraction (st_fs s)).1 =? 0
        then [print "[LOG] Extração do áudio concluída."] else []))%list)
  /\
  (exists s',
     run_quiet w (convert_to_mono source target) s =
       (if (w_run w downmix (st_fs s)).1 =? 0 then Returned tt s'
        else Raised (CalledProcessError (w_run w downmix (st_fs s)).1 downmix) s') /\
     st_fs s' = written downmix /\
     st_trace s' = (st_trace s ++ [subprocess_run downmix])%list).
Proof.
  cbv zeta. split.
  - unfold extract_audio. exec.
    destruct (w_run w _ (st_fs s)) as [code [bytes|]]; exec;
      destruct (code =? 0); exec; eexists; (split; [reflexivity|]); cbn;
      rewrite <- ?app_assoc; split; reflexivity.
  - unfold convert_to_mono. exec.
    destruct (w_run w _ (st_fs s)) as [code [bytes|]]; exec;
      destruct (code =? 0); exec; eexists; (split; [reflexivity|]); cbn;
      split; reflexivity.
Qed.

(** [download_video] writes only after an answer with status 200.  When
    [requests.get] raises, when the status is another one, or when a
    directory is at the destination, it raises and the filesystem is as it
    was.  When the body stream breaks after some chunks, the exception
    propagates and the destination keeps the chunks received so far: the
    partial file is not removed. *)
Theorem download_video_outcomes (w : World) (url download_path : string) (s : State) :
  exists s',
    run_quiet w (download_video url download_path) s =
      match w_get w url with
      | inl e => Raised e s'
      | inr response =>
          if status_code response =? 200 then
            if Fs.isdir (st_fs s) download_path
            then Raised (OSError download_path) s'
            else match (iter_content response 1024%nat).2 with
                 | Some e => Raised e s'
                 | None => Returned tt s'
                 end
          else Raised (RuntimeError_int "Erro ao baixar vídeo. Status HTTP: "
                         (status_code response)) s'
      end /\
    st_fs s' =
      match w_get w url with
      | inl _ => st_fs s
      | inr response =>
          if (status_code response =? 200) && negb (Fs.isdir (st_fs s) download_path)
          then <[download_path :=
                   File (String.concat "" (iter_content response 1024%nat).1)]> (st_fs s)
          else st_fs s
      end.
Proof.
  unfold download_video. exec.
  destruct (w_get w url) as [e|response]; exec.
  { eexists. split; reflexivity. }
  destruct (status_code response =? 200); exec.
  2: { eexists. split; reflexivity. }
  destruct (Fs.isdir (st_fs s) download_path) eqn:Hdir; exec.
  { eexists. split; reflexivity. }
  destruct (iter_content response 1024%nat) as [chunks broken].
  rewrite !run_quiet_bind.
  edestruct (write_chunks w download_path chunks "") as (s' & -> & Hfs & _).
  { cbn. apply lookup_insert_eq. }
  destruct broken as [e|]; exec.
  - exists s'. split; [reflexivity|]. cbn in Hfs. rewrite Hfs, insert_insert_eq.
    reflexivity.
  - eexists. split; [reflexivity|]. cbn in *. rewrite Hfs, insert_insert_eq.
    reflexivity.
Qed.



(** ** An input that names nothing *)

Section Missing.
Context (w : World) (s0 : State).
Hypothesis no_temp_files : st_temp_files s0 = [].

Ltac quiet_step :=
  lazymatch goal with
  | |- keeps _ _ (call ?c) _ =>
      first [ apply (keeps_quiet_call w s0 no_temp_files c)
            | apply (keeps_quiet_line w s0 no_temp_files c) ]; reflexivity
  end.

Lemma main_missing_skipped (video_path output_path model_size language : string) :
  Fs.exists_ (st_fs s0) video_path = false ->
  keeps w (skipped s0) (main video_path output_path model_size language)
    (fun _ => True).
Proof.
  intros Hex.
  assert (Hdir : Fs.isdir (st_fs s0) video_path = false).
  { unfold Fs.exists_, Fs.isdir in *.
    destruct (st_fs s0 !! video_path); [discriminate|reflexivity]. }
  unfold main. apply keeps_try; [|intro; quiet_step].
  eapply keeps_seq;
    [apply check_dependencies_keeps; exact (keeps_quiet_line w s0 no_temp_files)|].
  eapply keeps_bind; [quiet_step|intros model _].
  eapply keeps_bind; [quiet_step|intros tool _].
  eapply keeps_bind; [quiet_step|intros is_folder E].
  cbn [reads] in E. rewrite Hdir in E. subst is_folder.
  eapply keeps_bind; [quiet_step|intros present E].
  cbn [reads] in E. rewrite Hex in E. subst present. cbn [negb].
  quiet_step.
Qed.

End Missing.

Lemma main_missing_quiet (w : World) (fs : FS)
    (video_path output_path model_size language : string) :
  Fs.exists_ fs video_path = false ->
  exists s',
    run_quiet w (main video_path output_path model_size language) (start fs None)
    = Returned tt s' /\
    (List.last (st_trace s') temp_files_read
     = print ("Erro: O arquivo de entrada '" +:+ video_path +:+ "' não existe.")
     \/ exists e, List.last (st_trace s') temp_files_read = print_exn "Erro fatal: " e).
Proof.
  intros Hex.
  assert (Hdir : Fs.isdir fs video_path = false).
  { unfold Fs.exists_, Fs.isdir in *. destruct (fs !! video_path); [discriminate|reflexivity]. }
  unfold main, check_dependencies. exec.
  destruct (w_run w ["which"; "ffmpeg"] fs) as [code out]. exec.
  destruct (code =? 0); exec;
    [|eexists; split; [reflexivity|right; eexists; reflexivity]].
  destruct (w_load_model w "base"); exec;
    [eexists; split; [reflexivity|right; eexists; reflexivity]|].
  destruct (w_language_tool w "pt-BR"); exec;
    [eexists; split; [reflexivity|right; eexists; reflexivity]|].
  destruct (w_load_model w model_size); exec;
    [eexists; split; [reflexivity|right; eexists; reflexivity]|].
  destruct (w_language_tool w language); exec;
    [eexists; split; [reflexivity|right; eexists; reflexivity]|].
  rewrite Hdir. exec. rewrite Hex. exec.
  eexists. split; [reflexivity|left; reflexivity].
Qed.

(** An input that names no existing path is rejected before any work, a URL
    like any other name: whenever a signal arrives, the run draws no token,
    makes no stage call (so nothing is fetched) and leaves every file as it
    was; with no signal it returns normally, its last line being the
    "arquivo de entrada não existe" message (or "Erro fatal" when a
    dependency is missing). *)
Theorem missing_input_is_rejected (w : World) (fs : FS) (signal : option nat)
    (video_path output_path model_size language : string) :
  Fs.exists_ fs video_path = false ->
  skipped (start fs signal)
    (final (run_main w fs signal video_path output_path model_size language))
  /\ (forall url,
        requests_get url
          ∉ st_trace (final (run_main w fs signal video_path output_path
                               model_size language)))
  /\ exists s',
       run_main w fs None video_path output_path model_size language = Returned tt s' /\
       (List.last (st_trace s') temp_files_read
        = print ("Erro: O arquivo de entrada '" +:+ video_path +:+ "' não existe.")
        \/ exists e,
             List.last (st_trace s') temp_files_read = print_exn "Erro fatal: " e).
Proof.
  intros Hex.
  assert (Hskip : skipped (start fs signal)
            (final (run_main w fs signal video_path output_path model_size language))).
  { unfold run_main.
    apply (keeps_final w _ _ (fun _ => True)); [|apply skipped_refl].
    apply main_missing_skipped; [reflexivity|exact Hex]. }
  split; [exact Hskip|]. split.
  - intros url Hin. destruct Hskip as (_ & _ & _ & tr & Htr & Hall).
    rewrite Htr in Hin. cbn in Hin. rewrite Forall_forall in Hall.
    specialize (Hall _ Hin). discriminate Hall.
  - unfold run_main. rewrite run_no_signal by reflexivity.
    apply main_missing_quiet. exact Hex.
Qed.

Lemma missing_input_is_rejected_witness :
  skipped (start Scenario.fs_talk (Some 6%nat))
    (final (run_main Scenario.answers_200 Scenario.fs_talk (Some 6%nat)
              "http://example.com/clip.mp4" "clip.txt" "base" "pt-BR")).
Proof.
  exact (proj1 (missing_input_is_rejected Scenario.answers_200 Scenario.fs_talk
                  (Some 6%nat) "http://example.com/clip.mp4" "clip.txt" "base" "pt-BR"
                  eq_refl)).
Defined.
